(** * semantic-sdp-js: the SDPInfo session object, its serializer and its parser

    A shallow embedding of [lib/SDPInfo.js], [lib/ICEInfo.js] and
    [lib/StreamInfo.js], with the properties of the session object
    ([getMediaById], [clone], [plain], [answer]), of the serializer
    ([toString]) and of the parser ([SDPInfo.process]).

    Conventions of the embedding.
    - A call either returns a value or throws: [completion].  The only
      exception the modelled code raises is a [TypeError] (reading a property
      of [null]/[undefined], calling a member that is not a function).
    - JavaScript strings are modelled by [string] over 7-bit code units, on
      which [toLowerCase], [toUpperCase] and [trim] are the ones below.
    - JavaScript numbers that the code handles (payload types, ssrcs, ports,
      clock readings) are integers, modelled by [Z]; the result of [parseInt],
      which may be [NaN], is a [number].
    - [Map] objects are association lists in insertion order ([Map]); the
      plain object that collects [fmtp] parameters is a [gmap].
    - The attribute tree exchanged with [sdp-transform] is the record [SDP];
      [sdp-transform] itself and the value classes whose files are not part
      of the sources are collaborators. *)

From Stdlib Require Import ZArith String Ascii List Lia.
From stdpp Require Import base option list strings pretty gmap.

Local Open Scope list_scope.

(** ** Completions *)

Inductive exception : Type :=
  | TypeError (what : string).

Inductive completion (A : Type) : Type :=
  | Returns (a : A)
  | Throws (e : exception).
Arguments Returns {A} a.
Arguments Throws {A} e.

#[global] Instance completion_ret : MRet completion := @Returns.
#[global] Instance completion_bind : MBind completion :=
  λ A B f m, match m with Returns a => f a | Throws e => Throws e end.
#[global] Instance completion_fmap : FMap completion :=
  λ A B f m, match m with Returns a => Returns (f a) | Throws e => Throws e end.

Definition throws {A} (m : completion A) : Prop := ∃ e, m = Throws e.

(** [for (x of xs) acc = body(acc, x)], where the body may throw. *)
Fixpoint for_each {A S : Type} (body : S → A → completion S) (xs : list A) (s : S)
  : completion S :=
  match xs with
  | [] => Returns s
  | x :: xs' => s' ← body s x; for_each body xs' s'
  end.

(** Property access [o.f] on a reference that may be [null]/[undefined]. *)
Definition deref {A} (what : string) (o : option A) : completion A :=
  match o with
  | Some a => Returns a
  | None => Throws (TypeError what)
  end.

(** ** Strings *)

Definition is_upper (c : ascii) : bool :=
  let n := nat_of_ascii c in (65 <=? n)%nat && (n <=? 90)%nat.
Definition is_lower (c : ascii) : bool :=
  let n := nat_of_ascii c in (97 <=? n)%nat && (n <=? 122)%nat.

Definition lower_char (c : ascii) : ascii :=
  if is_upper c then ascii_of_nat (nat_of_ascii c + 32) else c.
Definition upper_char (c : ascii) : ascii :=
  if is_lower c then ascii_of_nat (nat_of_ascii c - 32) else c.

Fixpoint map_string (f : ascii → ascii) (s : string) : string :=
  match s with
  | EmptyString => EmptyString
  | String c s' => String (f c) (map_string f s')
  end.

Definition toLowerCase : string → string := map_string lower_char.
Definition toUpperCase : string → string := map_string upper_char.

(** White space and line terminators of the 7-bit range: TAB, LF, VT, FF, CR, SP. *)
Definition is_space (c : ascii) : bool :=
  let n := nat_of_ascii c in ((9 <=? n)%nat && (n <=? 13)%nat) || (n =? 32)%nat.

Fixpoint trimStart (s : string) : string :=
  match s with
  | String c s' => if is_space c then trimStart s' else s
  | EmptyString => EmptyString
  end.

Fixpoint trimEnd (s : string) : string :=
  match s with
  | EmptyString => EmptyString
  | String c s' =>
      match trimEnd s' with
      | EmptyString => if is_space c then EmptyString else String c EmptyString
      | r => String c r
      end
  end.

Definition trim (s : string) : string := trimEnd (trimStart s).

(** [s.split(sep)] for a one-character separator: never empty. *)
Fixpoint split (sep : ascii) (s : string) : list string :=
  match s with
  | EmptyString => [EmptyString]
  | String c s' =>
      if Ascii.eqb c sep then EmptyString :: split sep s'
      else match split sep s' with
           | h :: t => String c h :: t
           | [] => [String c EmptyString]
           end
  end.

(** [xs.join(sep)] on an array of strings. *)
Fixpoint join (sep : string) (xs : list string) : string :=
  match xs with
  | [] => ""
  | [x] => x
  | x :: xs' => x +:+ sep +:+ join sep xs'
  end.

(** [s.includes(c)] for a one-character [c]. *)
Fixpoint includes (c : ascii) (s : string) : bool :=
  match s with
  | EmptyString => false
  | String c' s' => Ascii.eqb c' c || includes c s'
  end.

(** A string is falsy exactly when it is empty. *)
Definition truthy_string (s : string) : bool :=
  match s with EmptyString => false | _ => true end.

(** A possibly [undefined] string is truthy when it is defined and not empty. *)
Definition truthy (o : option string) : bool :=
  match o with Some s => truthy_string s | None => false end.

(** String conversion of a possibly [undefined] string, as done by [+]. *)
Definition to_string (o : option string) : string := default "undefined" o.

(** ** Numbers *)

Inductive number : Type :=
  | Num (z : Z)
  | NaN.

#[global] Instance number_eq_dec : EqDecision number.
Proof. solve_decision. Defined.

Definition number_to_string (n : number) : string :=
  match n with Num z => pretty z | NaN => "NaN" end.

Definition dec_digit (c : ascii) : option Z :=
  let n := nat_of_ascii c in
  if (48 <=? n)%nat && (n <=? 57)%nat then Some (Z.of_nat (n - 48)) else None.

Definition hex_digit (c : ascii) : option Z :=
  let n := nat_of_ascii c in
  if (48 <=? n)%nat && (n <=? 57)%nat then Some (Z.of_nat (n - 48))
  else if (97 <=? n)%nat && (n <=? 102)%nat then Some (Z.of_nat (n - 87))
  else if (65 <=? n)%nat && (n <=? 70)%nat then Some (Z.of_nat (n - 55))
  else None.

(** The longest prefix of digits, read in the given radix; [None] when there is none. *)
Fixpoint read_digits (digit : ascii → option Z) (radix : Z) (s : string) (acc : option Z)
  : option Z :=
  match s with
  | EmptyString => acc
  | String c s' =>
      match digit c with
      | Some d => read_digits digit radix s' (Some (radix * default 0%Z acc + d)%Z)
      | None => acc
      end
  end.

(** [parseInt(s)] with no radix: leading white space, a sign, an optional
    [0x] prefix, then the longest prefix of digits. *)
Definition parseInt (s : string) : number :=
  let s := trimStart s in
  let '(negative, s) :=
    match s with
    | String "-" r => (true, r)
    | String "+" r => (false, r)
    | _ => (false, s)
    end in
  let digits :=
    match s with
    | String "0" (String "x" r) | String "0" (String "X" r) => read_digits hex_digit 16 r None
    | _ => read_digits dec_digit 10 s None
    end in
  match digits with
  | Some v => Num (if negative then - v else v)%Z
  | None => NaN
  end.

(** [parseInt(undefined)] converts its argument to the string "undefined". *)
Definition parseInt_opt (o : option string) : number := parseInt (to_string o).

(** ** Maps in insertion order *)

Section InsertionOrder.
Context {K V : Type} `{EqDecision K}.

Definition Map : Type := list (K * V).

(** [m.get(k)] *)
Fixpoint Map_get (k : K) (m : Map) : option V :=
  match m with
  | [] => None
  | (k', v) :: m' => if decide (k' = k) then Some v else Map_get k m'
  end.

(** [m.set(k, v)]: an existing key keeps its position. *)
Fixpoint Map_set (k : K) (v : V) (m : Map) : Map :=
  match m with
  | [] => [(k, v)]
  | (k', v') :: m' => if decide (k' = k) then (k, v) :: m' else (k', v') :: Map_set k v m'
  end.

(** [m.values()] *)
Definition Map_values (m : Map) : list V := snd <$> m.
End InsertionOrder.
Arguments Map : clear implicits.

(** A reference as a method hands it back: [undefined], [null] or an object. *)
Inductive reference (A : Type) : Type :=
  | Undefined
  | Null
  | Object (a : A).
Arguments Undefined {A}.
Arguments Null {A}.
Arguments Object {A} a.

(** ** The attribute tree of sdp-transform

    One record per line kind; a field that the text may lack is an [option]. *)

Record Origin : Type := {
  username : string;
  sessionId : Z;
  sessionVersion : Z;
  netType : string;
  ipVer : Z;
  address : string;
}.

Record Connection : Type := { conn_version : Z; conn_ip : string }.
Record Timing : Type := { start : Z; stop : Z }.
Record MsidSemantic : Type := { semantic : string; token : string }.
Record Group : Type := { group_type : string; mids : string }.
Record Fingerprint : Type := { fp_type : string; fp_hash : string }.
Record Rtp : Type := {
  rtp_payload : Z;
  rtp_codec : string;
  rtp_rate : option Z;
  rtp_encoding : option Z;
}.
Record Fmtp : Type := { fmtp_payload : Z; fmtp_config : string }.
Record RtcpFb : Type := { fb_payload : Z; fb_type : string; fb_subtype : option string }.
Record Ext : Type := { ext_value : Z; ext_uri : string }.
Record Bandwidth : Type := { bw_type : string; bw_limit : Z }.
Record Candidate : Type := {
  c_foundation : string;
  c_component : Z;
  c_transport : string;
  c_priority : Z;
  c_ip : string;
  c_port : Z;
  c_type : string;
}.
Record SsrcGroup : Type := { sg_semantics : string; sg_ssrcs : string }.
Record Ssrc : Type := { ssrc_id : Z; ssrc_attribute : string; ssrc_value : option string }.
Record Rid : Type := { rid_id : string; rid_direction : string; rid_params : option string }.
(** [simulcast.dirN] and [simulcast.listN] come in pairs. *)
Record SimulcastList : Type := { sim_dir : option string; sim_list : string }.
Record Simulcast : Type := {
  dirlist1 : option SimulcastList;
  dirlist2 : option SimulcastList;
}.

Record MediaDescription : Type := {
  md_type : string;
  md_port : Z;
  md_protocol : string;
  md_fmtp : list Fmtp;
  md_rtp : list Rtp;
  md_rtcpFb : list RtcpFb;
  md_ext : list Ext;
  md_bandwidth : list Bandwidth;
  md_candidates : list Candidate;
  md_ssrcGroups : list SsrcGroup;
  md_ssrcs : list Ssrc;
  md_rids : list Rid;
  md_direction : option string;
  md_rtcpMux : option string;
  md_rtcpRsize : option string;
  md_mid : string;
  md_iceUfrag : option string;
  md_icePwd : option string;
  md_fingerprint : option Fingerprint;
  md_setup : option string;
  md_payloads : string;
  md_simulcast : option Simulcast;
  md_msid : option string;
}.

Record SDP : Type := {
  sdp_version : Z;
  sdp_origin : option Origin;
  sdp_name : string;
  sdp_connection : option Connection;
  sdp_timing : option Timing;
  sdp_icelite : option string;
  sdp_msidSemantic : option MsidSemantic;
  sdp_groups : list Group;
  sdp_fingerprint : option Fingerprint;
  sdp_media : list MediaDescription;
}.

(** One entry of a parsed simulcast stream list. *)
Record SimulcastStream : Type := { scid : string; paused : bool }.

(** The four operations of sdp-transform that SDPInfo.js calls. *)
Class SDPTransform : Type := {
  write : SDP → string;
  parse : string → SDP;
  parseParams : string → list (string * string);
  parseSimulcastStreamList : string → list (list SimulcastStream);
}.

(** ** Enumerations *)

(** Modelled from the spec: DirectionWay.js is not among the sources; the spec
    gives its two values, SEND and RECV. *)
Inductive DirectionWay : Type := SEND | RECV.

#[global] Instance DirectionWay_eq_dec : EqDecision DirectionWay.
Proof. solve_decision. Defined.

(** Setup.js, Direction.js and the conversions of DirectionWay.js are not among
    the sources: their values and conversions are taken as given. *)
Class Enumerations : Type := {
  Setup : Type;
  Setup_ACTPASS : Setup;
  Setup_byValue : string → Setup;
  Setup_toString : Setup → string;
  Direction : Type;
  Direction_SENDRECV : Direction;
  Direction_byValue : string → Direction;
  Direction_toString : Direction → string;
  DirectionWay_byValue : string → DirectionWay;
  DirectionWay_toString : DirectionWay → string;
}.

(** ** Value classes *)

(** lib/ICEInfo.js *)
Record ICEInfo : Type := {
  ufrag : option string;
  pwd : option string;
  lite : bool;
}.

Module ICE.
Definition new (ufrag pwd : option string) : ICEInfo :=
  {| ufrag := ufrag; pwd := pwd; lite := false |}.
Definition getUfrag (self : ICEInfo) : option string := ufrag self.
Definition getPwd (self : ICEInfo) : option string := pwd self.
Definition getLite (self : ICEInfo) : bool := lite self.
Definition setLite (self : ICEInfo) (lite : bool) : ICEInfo :=
  {| ufrag := ufrag self; pwd := pwd self; lite := lite |}.

(** The class body declares [getUfrag], [getPwd], [getLite] and [setLite]
    and extends nothing: on an instance the members [isLite], [clone] and
    [plain] are [undefined], and calling one is a TypeError. *)
Definition isLite (self : ICEInfo) : completion bool :=
  Throws (TypeError "isLite is not a function").
Definition clone (self : ICEInfo) : completion ICEInfo :=
  Throws (TypeError "clone is not a function").
Definition plain {P : Type} (self : ICEInfo) : completion P :=
  Throws (TypeError "plain is not a function").
End ICE.

(** Modelled from the spec: CodecInfo.js is not among the sources.  The spec
    gives a codec its name, payload type, parameter map and optional RTX
    payload type. *)
Record CodecInfo : Type := {
  codec : string;
  type : Z;
  params : gmap string string;
  rtx : option Z;
}.

Module Codec.
Definition new (codec : string) (type : Z) (params : gmap string string) : CodecInfo :=
  {| codec := codec; type := type; params := params; rtx := None |}.
Definition getType (self : CodecInfo) : Z := type self.
Definition getCodec (self : CodecInfo) : string := codec self.
Definition setRTX (self : CodecInfo) (rtx : Z) : CodecInfo :=
  {| codec := codec self; type := type self; params := params self; rtx := Some rtx |}.
Definition hasRTX (self : CodecInfo) : bool := bool_decide (is_Some (rtx self)).
Definition getRTX (self : CodecInfo) : option Z := rtx self.
End Codec.

(** Modelled from the spec: CandidateInfo.js is not among the sources. *)
Record CandidateInfo : Type := {
  foundation : string;
  componentId : Z;
  transport : string;
  priority : Z;
  caddress : string;
  port : Z;
  ctype : string;
}.

(** Modelled from the spec: RIDInfo.js is not among the sources.  A RID has an
    id, a direction, the payload types it is restricted to and the other
    parameters. *)
Record RIDInfo : Type := {
  rid : string;
  rdirection : DirectionWay;
  formats : list number;
  rparams : Map string string;
}.

(** Modelled from the spec: SimulcastStreamInfo.js and SimulcastInfo.js are not
    among the sources.  A simulcast holds, per direction, the list of
    alternative-stream sets in preference order. *)
Record SimulcastStreamInfo : Type := { sid : string; spaused : bool }.

Record SimulcastInfo : Type := {
  send : list (list SimulcastStreamInfo);
  recv : list (list SimulcastStreamInfo);
}.

Module SimulcastI.
Definition new : SimulcastInfo := {| send := []; recv := [] |}.
Definition addSimulcastAlternativeStreams (self : SimulcastInfo) (direction : DirectionWay)
    (streams : list SimulcastStreamInfo) : SimulcastInfo :=
  match direction with
  | SEND => {| send := send self ++ [streams]; recv := recv self |}
  | RECV => {| send := send self; recv := recv self ++ [streams] |}
  end.
Definition getSimulcastStreams (self : SimulcastInfo) (direction : DirectionWay)
  : list (list SimulcastStreamInfo) :=
  match direction with SEND => send self | RECV => recv self end.
End SimulcastI.

(** Modelled from the spec: TrackEncodingInfo.js is not among the sources. *)
Record TrackEncodingInfo : Type := {
  eid : string;
  epaused : bool;
  ecodecs : Map Z CodecInfo;
  eparams : Map string string;
}.

(** Modelled from the spec: SourceGroupInfo.js is not among the sources.  A
    group has its semantics and the ordered ssrcs, which the constructor reads
    as numbers. *)
Record SourceGroupInfo : Type := {
  semantics : string;
  gssrcs : list number;
}.

Module SourceGroup.
Definition new (semantics : string) (ssrcs : list string) : SourceGroupInfo :=
  {| semantics := semantics; gssrcs := parseInt <$> ssrcs |}.
Definition getSemantics (self : SourceGroupInfo) : string := semantics self.
Definition getSSRCs (self : SourceGroupInfo) : list number := gssrcs self.
End SourceGroup.

(** Modelled from the spec: SourceInfo.js is not among the sources.  The
    parse-time record of one ssrc: its cname and the ids of its stream and
    track, [undefined] until set. *)
Record SourceInfo : Type := {
  ssrc : Z;
  cname : option string;
  streamId : option string;
  trackId : option string;
}.

Module Source.
Definition new (ssrc : Z) : SourceInfo :=
  {| ssrc := ssrc; cname := None; streamId := None; trackId := None |}.
Definition getSSRC (self : SourceInfo) : Z := ssrc self.
Definition setCName (self : SourceInfo) (cname : option string) : SourceInfo :=
  {| ssrc := ssrc self; cname := cname; streamId := streamId self; trackId := trackId self |}.
Definition setStreamId (self : SourceInfo) (streamId : option string) : SourceInfo :=
  {| ssrc := ssrc self; cname := cname self; streamId := streamId; trackId := trackId self |}.
Definition setTrackId (self : SourceInfo) (trackId : option string) : SourceInfo :=
  {| ssrc := ssrc self; cname := cname self; streamId := streamId self; trackId := trackId |}.
Definition getStreamId (self : SourceInfo) : option string := streamId self.
Definition getTrackId (self : SourceInfo) : option string := trackId self.
End Source.

(** Modelled from the spec: TrackInfo.js is not among the sources.  A track has
    its media type, its id, the id of the media line that owns it (unified plan
    only), its ssrcs, its source groups and its simulcast encodings. *)
Record TrackInfo : Type := {
  media : string;
  tid : option string;
  mediaId : option string;
  ssrcs : list Z;
  groups : list SourceGroupInfo;
  encodings : list (list TrackEncodingInfo);
}.

Module Track.
Definition new (media : string) (id : option string) : TrackInfo :=
  {| media := media; tid := id; mediaId := None; ssrcs := []; groups := []; encodings := [] |}.
Definition getMedia (self : TrackInfo) : string := media self.
Definition getId (self : TrackInfo) : option string := tid self.
Definition getMediaId (self : TrackInfo) : option string := mediaId self.
Definition getSSRCs (self : TrackInfo) : list Z := ssrcs self.
Definition getSourceGroups (self : TrackInfo) : list SourceGroupInfo := groups self.
Definition setMediaId (self : TrackInfo) (mediaId : string) : TrackInfo :=
  {| media := media self; tid := tid self; mediaId := Some mediaId; ssrcs := ssrcs self;
     groups := groups self; encodings := encodings self |}.
Definition setEncodings (self : TrackInfo) (encodings : list (list TrackEncodingInfo))
  : TrackInfo :=
  {| media := media self; tid := tid self; mediaId := mediaId self; ssrcs := ssrcs self;
     groups := groups self; encodings := encodings |}.
Definition addSSRC (self : TrackInfo) (ssrc : Z) : TrackInfo :=
  {| media := media self; tid := tid self; mediaId := mediaId self;
     ssrcs := ssrcs self ++ [ssrc]; groups := groups self; encodings := encodings self |}.
Definition addSourceGroup (self : TrackInfo) (group : SourceGroupInfo) : TrackInfo :=
  {| media := media self; tid := tid self; mediaId := mediaId self; ssrcs := ssrcs self;
     groups := groups self ++ [group]; encodings := encodings self |}.
End Track.

(** lib/StreamInfo.js *)
Record StreamInfo : Type := {
  stream_id : string;
  tracks : Map (option string) TrackInfo;
}.

Module Stream.
Definition new (id : string) : StreamInfo := {| stream_id := id; tracks := [] |}.
Definition getId (self : StreamInfo) : string := stream_id self.
Definition addTrack (self : StreamInfo) (track : TrackInfo) : StreamInfo :=
  {| stream_id := stream_id self; tracks := Map_set (Track.getId track) track (tracks self) |}.

(** Both exits read a property that no StreamInfo has ([this.track],
    [this.null]). *)
Fixpoint getFirstTrack_loop (media : string) (ts : list TrackInfo) : reference TrackInfo :=
  match ts with
  | [] => Undefined
  | track :: ts' =>
      if String.eqb (toLowerCase (Track.getMedia track)) (toLowerCase media)
      then Undefined
      else getFirstTrack_loop media ts'
  end.
Definition getFirstTrack (self : StreamInfo) (media : string) : reference TrackInfo :=
  getFirstTrack_loop media (Map_values (tracks self)).

Definition getTracks (self : StreamInfo) : Map (option string) TrackInfo := tracks self.
Definition removeAllTracks (self : StreamInfo) : StreamInfo :=
  {| stream_id := stream_id self; tracks := [] |}.
Definition getTrack (self : StreamInfo) (trackId : option string) : option TrackInfo :=
  Map_get trackId (tracks self).

(** The class body declares neither [clone] nor [plain]. *)
Definition clone (self : StreamInfo) : completion StreamInfo :=
  Throws (TypeError "clone is not a function").
Definition plain {P : Type} (self : StreamInfo) : completion P :=
  Throws (TypeError "plain is not a function").
End Stream.


Module RID.
Definition new (id : string) (direction : DirectionWay) : RIDInfo :=
  {| rid := id; rdirection := direction; formats := []; rparams := [] |}.
Definition getId (self : RIDInfo) : string := rid self.
Definition getDirection (self : RIDInfo) : DirectionWay := rdirection self.
Definition getFormats (self : RIDInfo) : list number := formats self.
Definition getParams (self : RIDInfo) : Map string string := rparams self.
Definition setFormats (self : RIDInfo) (formats : list string) : RIDInfo :=
  {| rid := rid self; rdirection := rdirection self; formats := parseInt <$> formats;
     rparams := rparams self |}.
Definition setParams (self : RIDInfo) (params : Map string string) : RIDInfo :=
  {| rid := rid self; rdirection := rdirection self; formats := formats self;
     rparams := params |}.
End RID.

Module TrackEncoding.
Definition new (id : string) (paused : bool) : TrackEncodingInfo :=
  {| eid := id; epaused := paused; ecodecs := []; eparams := [] |}.
Definition getId (self : TrackEncodingInfo) : string := eid self.
Definition addCodec (self : TrackEncodingInfo) (codec : CodecInfo) : TrackEncodingInfo :=
  {| eid := eid self; epaused := epaused self;
     ecodecs := Map_set (Codec.getType codec) codec (ecodecs self); eparams := eparams self |}.
Definition setParams (self : TrackEncodingInfo) (params : Map string string)
  : TrackEncodingInfo :=
  {| eid := eid self; epaused := epaused self; ecodecs := ecodecs self; eparams := params |}.
End TrackEncoding.

(** ** The session object *)

Section Session.
Context {enums : Enumerations}.

(** Modelled from the spec: DTLSInfo.js is not among the sources. *)
Record DTLSInfo : Type := {
  setup : Setup;
  hash : string;
  fingerprint : string;
}.

(** Modelled from the spec: MediaInfo.js is not among the sources.  A media
    line has its id (mid), type, direction, the codecs by payload type, the
    header extensions by id, the RIDs by id, an optional simulcast and a
    bitrate cap (0 when there is none). *)
Record MediaInfo : Type := {
  m_id : string;
  m_type : string;
  direction : Direction;
  codecs : Map Z CodecInfo;
  extensions : Map Z string;
  rids : Map string RIDInfo;
  simulcast : option SimulcastInfo;
  bitrate : Z;
}.

Definition MediaInfo_new (id type : string) : MediaInfo :=
  {| m_id := id; m_type := type; direction := Direction_SENDRECV; codecs := [];
     extensions := []; rids := []; simulcast := None; bitrate := 0 |}.
Definition MediaInfo_getId (self : MediaInfo) : string := m_id self.
Definition MediaInfo_getType (self : MediaInfo) : string := m_type self.
Definition MediaInfo_getDirection (self : MediaInfo) : Direction := direction self.
Definition MediaInfo_getBitrate (self : MediaInfo) : Z := bitrate self.
Definition MediaInfo_getCodecs (self : MediaInfo) : Map Z CodecInfo := codecs self.
Definition MediaInfo_getExtensions (self : MediaInfo) : Map Z string := extensions self.
Definition MediaInfo_getRIDs (self : MediaInfo) : Map string RIDInfo := rids self.
Definition MediaInfo_getSimulcast (self : MediaInfo) : option SimulcastInfo := simulcast self.
Definition MediaInfo_getRID (self : MediaInfo) (id : string) : option RIDInfo :=
  Map_get id (rids self).

(** The codec stored under a payload type; no codec is stored under [NaN]. *)
Definition MediaInfo_getCodecForType (self : MediaInfo) (type : number) : option CodecInfo :=
  match type with
  | Num t => Map_get t (codecs self)
  | NaN => None
  end.

Definition MediaInfo_with_codecs (self : MediaInfo) (cs : Map Z CodecInfo) : MediaInfo :=
  {| m_id := m_id self; m_type := m_type self; direction := direction self; codecs := cs;
     extensions := extensions self; rids := rids self; simulcast := simulcast self;
     bitrate := bitrate self |}.
Definition MediaInfo_setDirection (self : MediaInfo) (d : Direction) : MediaInfo :=
  {| m_id := m_id self; m_type := m_type self; direction := d; codecs := codecs self;
     extensions := extensions self; rids := rids self; simulcast := simulcast self;
     bitrate := bitrate self |}.
Definition MediaInfo_addCodec (self : MediaInfo) (codec : CodecInfo) : MediaInfo :=
  MediaInfo_with_codecs self (Map_set (Codec.getType codec) codec (codecs self)).
Definition MediaInfo_addExtension (self : MediaInfo) (id : Z) (uri : string) : MediaInfo :=
  {| m_id := m_id self; m_type := m_type self; direction := direction self;
     codecs := codecs self; extensions := Map_set id uri (extensions self); rids := rids self;
     simulcast := simulcast self; bitrate := bitrate self |}.
Definition MediaInfo_addRID (self : MediaInfo) (ridInfo : RIDInfo) : MediaInfo :=
  {| m_id := m_id self; m_type := m_type self; direction := direction self;
     codecs := codecs self; extensions := extensions self;
     rids := Map_set (RID.getId ridInfo) ridInfo (rids self); simulcast := simulcast self;
     bitrate := bitrate self |}.
Definition MediaInfo_setSimulcast (self : MediaInfo) (s : SimulcastInfo) : MediaInfo :=
  {| m_id := m_id self; m_type := m_type self; direction := direction self;
     codecs := codecs self; extensions := extensions self; rids := rids self;
     simulcast := Some s; bitrate := bitrate self |}.

(** The collaborators of SDPInfo.js among the value classes: the methods of
    MediaInfo, CandidateInfo and DTLSInfo that it calls and whose bodies are
    not among the sources.  Each may return or throw. *)
Class Collaborators : Type := {
  PlainObject : Type;
  Supported : Type;
  MediaInfo_clone : MediaInfo → completion MediaInfo;
  MediaInfo_plain : MediaInfo → completion PlainObject;
  MediaInfo_answer : MediaInfo → option Supported → completion MediaInfo;
  CandidateInfo_clone : CandidateInfo → completion CandidateInfo;
  CandidateInfo_plain : CandidateInfo → completion PlainObject;
  DTLSInfo_clone : DTLSInfo → completion DTLSInfo;
  DTLSInfo_plain : DTLSInfo → completion PlainObject;
}.

(** lib/SDPInfo.js *)
Record SDPInfo : Type := {
  version : Z;
  streams : Map string StreamInfo;
  medias : list MediaInfo;
  candidates : list CandidateInfo;
  ice : option ICEInfo;
  dtls : option DTLSInfo;
}.

(** [new SDPInfo(version)]: [version || 1]. *)
Definition new (v : option Z) : SDPInfo :=
  {| version := match v with Some n => if (n =? 0)%Z then 1%Z else n | None => 1%Z end;
     streams := []; medias := []; candidates := []; ice := None; dtls := None |}.

Definition setVersion (self : SDPInfo) (v : Z) : SDPInfo :=
  {| version := v; streams := streams self; medias := medias self;
     candidates := candidates self; ice := ice self; dtls := dtls self |}.
Definition addMedia (self : SDPInfo) (media : MediaInfo) : SDPInfo :=
  {| version := version self; streams := streams self; medias := medias self ++ [media];
     candidates := candidates self; ice := ice self; dtls := dtls self |}.
Definition getVersion (self : SDPInfo) : Z := version self.
Definition getDTLS (self : SDPInfo) : option DTLSInfo := dtls self.
Definition setDTLS (self : SDPInfo) (dtlsInfo : option DTLSInfo) : SDPInfo :=
  {| version := version self; streams := streams self; medias := medias self;
     candidates := candidates self; ice := ice self; dtls := dtlsInfo |}.
Definition getICE (self : SDPInfo) : option ICEInfo := ice self.
Definition setICE (self : SDPInfo) (iceInfo : option ICEInfo) : SDPInfo :=
  {| version := version self; streams := streams self; medias := medias self;
     candidates := candidates self; ice := iceInfo; dtls := dtls self |}.
Definition addCandidate (self : SDPInfo) (candidate : CandidateInfo) : SDPInfo :=
  {| version := version self; streams := streams self; medias := medias self;
     candidates := candidates self ++ [candidate]; ice := ice self; dtls := dtls self |}.
Definition addCandidates (self : SDPInfo) (cs : list CandidateInfo) : SDPInfo :=
  fold_left addCandidate cs self.
Definition getCandidates (self : SDPInfo) : list CandidateInfo := candidates self.
Definition getStream (self : SDPInfo) (id : string) : option StreamInfo :=
  Map_get id (streams self).
Definition getStreams (self : SDPInfo) : Map string StreamInfo := streams self.
Definition with_streams (self : SDPInfo) (ss : Map string StreamInfo) : SDPInfo :=
  {| version := version self; streams := ss; medias := medias self;
     candidates := candidates self; ice := ice self; dtls := dtls self |}.
Definition addStream (self : SDPInfo) (stream : StreamInfo) : SDPInfo :=
  with_streams self (Map_set (Stream.getId stream) stream (streams self)).
Definition removeStream (self : SDPInfo) (stream : StreamInfo) : SDPInfo :=
  with_streams self
    (filter (λ kv, kv.1 ≠ Stream.getId stream) (streams self)).
Definition getFirstStream (self : SDPInfo) : reference StreamInfo :=
  match Map_values (streams self) with
  | stream :: _ => Object stream
  | [] => Null
  end.

(** The second declaration of [getMedias] in the class body, the one without
    argument, is the one in force. *)
Definition getMedias (self : SDPInfo) : list MediaInfo := medias self.

Fixpoint getMedia_loop (type : string) (ms : list MediaInfo) : reference MediaInfo :=
  match ms with
  | [] => Null
  | media :: ms' =>
      if String.eqb (toLowerCase (MediaInfo_getType media)) (toLowerCase type)
      then Object media
      else getMedia_loop type ms'
  end.
Definition getMedia (self : SDPInfo) (type : string) : reference MediaInfo :=
  getMedia_loop type (medias self).

(** [this.media]: the constructor assigns [version], [streams], [medias],
    [candidates], [ice] and [dtls], and no method assigns [media]. *)
Definition this_media (self : SDPInfo) : reference MediaInfo := Undefined.

Fixpoint getMediaById_loop (self : SDPInfo) (msid : string) (ms : list MediaInfo)
  : reference MediaInfo :=
  match ms with
  | [] => Null
  | media :: ms' =>
      if String.eqb (toLowerCase (MediaInfo_getId media)) (toLowerCase msid)
      then this_media self
      else getMediaById_loop self msid ms'
  end.
Definition getMediaById (self : SDPInfo) (msid : string) : reference MediaInfo :=
  getMediaById_loop self msid (medias self).

Context {collab : Collaborators} {transform : SDPTransform}.

(** *** clone and plain *)

Definition clone (self : SDPInfo) : completion SDPInfo :=
  let cloned := new (Some (version self)) in
  cloned ← for_each (λ cloned media,
              m ← MediaInfo_clone media; Returns (addMedia cloned m))
            (medias self) cloned;
  cloned ← for_each (λ cloned stream,
              s ← Stream.clone stream; Returns (addStream cloned s))
            (Map_values (streams self)) cloned;
  cloned ← for_each (λ cloned candidate,
              c ← CandidateInfo_clone candidate; Returns (addCandidate cloned c))
            (candidates self) cloned;
  this_ice ← deref "Cannot read properties of null (reading 'clone')" (ice self);
  i ← ICE.clone this_ice;
  let cloned := setICE cloned (Some i) in
  this_dtls ← deref "Cannot read properties of null (reading 'clone')" (dtls self);
  d ← DTLSInfo_clone this_dtls;
  let cloned := setDTLS cloned (Some d) in
  Returns cloned.

(** The object that [plain()] builds; a [null] ice or dtls is [None]. *)
Record PlainSDPInfo : Type := {
  plain_version : Z;
  plain_streams : list PlainObject;
  plain_medias : list PlainObject;
  plain_candidates : list PlainObject;
  plain_ice : option PlainObject;
  plain_dtls : option PlainObject;
}.

(** [o && o.plain()] *)
Definition and_plain {A} (o : option A) (plain : A → completion PlainObject)
  : completion (option PlainObject) :=
  match o with
  | None => Returns None
  | Some a => p ← plain a; Returns (Some p)
  end.

Definition plain (self : SDPInfo) : completion PlainSDPInfo :=
  ms ← for_each (λ acc media, p ← MediaInfo_plain media; Returns (acc ++ [p]))
         (medias self) [];
  ss ← for_each (λ acc stream, p ← Stream.plain stream; Returns (acc ++ [p]))
         (Map_values (streams self)) [];
  cs ← for_each (λ acc candidate, p ← CandidateInfo_plain candidate; Returns (acc ++ [p]))
         (candidates self) [];
  i ← and_plain (ice self) ICE.plain;
  d ← and_plain (dtls self) DTLSInfo_plain;
  Returns {| plain_version := version self; plain_streams := ss; plain_medias := ms;
             plain_candidates := cs; plain_ice := i; plain_dtls := d |}.

(** *** answer *)

(** The [params] object of [answer]; an absent property is [None]. *)
Record AnswerParams : Type := {
  params_ice : option ICEInfo;
  params_dtls : option DTLSInfo;
  params_candidates : option (list CandidateInfo);
  params_capabilities : option (gmap string Supported);
}.

Definition answer (self : SDPInfo) (params : option AnswerParams) : completion SDPInfo :=
  let answer := new None in
  p ← deref "Cannot read properties of undefined (reading 'ice')" params;
  let answer :=
    match params_ice p with
    | Some _ => setDTLS answer (params_dtls p)
    | None => answer
    end in
  let answer :=
    match params_dtls p with
    | Some _ => setICE answer (params_ice p)
    | None => answer
    end in
  let answer :=
    match params_candidates p with
    | Some cs => addCandidates answer cs
    | None => answer
    end in
  for_each (λ answer media,
      capabilities ← deref "Cannot read properties of undefined" (params_capabilities p);
      let supported := capabilities !! MediaInfo_getType media in
      m ← MediaInfo_answer media supported;
      Returns (addMedia answer m))
    (medias self) answer.

(** *** toString *)

(** [!s] on a string, and [b === s] between a boolean and a string: operands of
    different types are never strictly equal. *)
Definition not_string (s : string) : bool := negb (truthy_string s).
Definition strict_eq_bool_string (b : bool) (s : string) : bool := false.

(** The three arrays that the codec loop fills. *)
Record CodecLines : Type := {
  lines_rtp : list Rtp;
  lines_rtcpFb : list RtcpFb;
  lines_fmtp : list Fmtp;
}.

Definition push_rtp (l : CodecLines) (x : Rtp) : CodecLines :=
  {| lines_rtp := lines_rtp l ++ [x]; lines_rtcpFb := lines_rtcpFb l;
     lines_fmtp := lines_fmtp l |}.
Definition push_rtcpFb (l : CodecLines) (x : RtcpFb) : CodecLines :=
  {| lines_rtp := lines_rtp l; lines_rtcpFb := lines_rtcpFb l ++ [x];
     lines_fmtp := lines_fmtp l |}.
Definition push_fmtp (l : CodecLines) (x : Fmtp) : CodecLines :=
  {| lines_rtp := lines_rtp l; lines_rtcpFb := lines_rtcpFb l;
     lines_fmtp := lines_fmtp l ++ [x] |}.

(** The body of the loop over [media.getCodecs().values()]. *)
Definition toString_codec (media : MediaInfo) (md : CodecLines) (codec : CodecInfo)
  : CodecLines :=
  let md :=
    if String.eqb "video" (toLowerCase (MediaInfo_getType media)) then
      let md := push_rtp md {| rtp_payload := Codec.getType codec;
                               rtp_codec := Codec.getCodec codec;
                               rtp_rate := Some 90000%Z; rtp_encoding := None |} in
      if strict_eq_bool_string (not_string "flex-fec") (toLowerCase (Codec.getCodec codec))
      then
        let md := push_rtcpFb md {| fb_payload := Codec.getType codec; fb_type := "nack";
                                    fb_subtype := Some "pli" |} in
        push_rtcpFb md {| fb_payload := Codec.getType codec; fb_type := "goog-remb";
                          fb_subtype := None |}
      else md
    else if String.eqb "opus" (toLowerCase (Codec.getCodec codec)) then
      push_rtp md {| rtp_payload := Codec.getType codec; rtp_codec := Codec.getCodec codec;
                     rtp_rate := Some 48000%Z; rtp_encoding := Some 2%Z |}
    else
      push_rtp md {| rtp_payload := Codec.getType codec; rtp_codec := Codec.getCodec codec;
                     rtp_rate := Some 8000%Z; rtp_encoding := None |} in
  let md := push_rtcpFb md {| fb_payload := Codec.getType codec; fb_type := "transport-cc";
                              fb_subtype := None |} in
  match Codec.getRTX codec with
  | Some rtx =>
      let md := push_rtp md {| rtp_payload := rtx; rtp_codec := "rtx";
                               rtp_rate := Some 90000%Z; rtp_encoding := None |} in
      push_fmtp md {| fmtp_payload := rtx;
                      fmtp_config := "apt=" +:+ pretty (Codec.getType codec) |}
  | None => md
  end.

Definition toString_codecs (media : MediaInfo) : CodecLines :=
  fold_left (toString_codec media) (Map_values (MediaInfo_getCodecs media))
    {| lines_rtp := []; lines_rtcpFb := []; lines_fmtp := [] |}.

Definition toString_candidate (candidate : CandidateInfo) : Candidate :=
  {| c_foundation := foundation candidate; c_component := componentId candidate;
     c_transport := transport candidate; c_priority := priority candidate;
     c_ip := caddress candidate; c_port := port candidate; c_type := ctype candidate |}.

Definition toString_rid (ridInfo : RIDInfo) : Rid :=
  let params :=
    match RID.getFormats ridInfo with
    | [] => ""
    | fs => "pt=" +:+ join "," (number_to_string <$> fs)
    end in
  let params :=
    fold_left (λ params kv,
        params +:+ (if truthy_string params then ";" else "") +:+ kv.1 +:+ "=" +:+ kv.2)
      (RID.getParams ridInfo) params in
  {| rid_id := RID.getId ridInfo;
     rid_direction := DirectionWay_toString (RID.getDirection ridInfo);
     rid_params := Some params |}.

(** The text of one direction of a simulcast attribute. *)
Definition toString_alternatives (streams : list SimulcastStreamInfo) : string :=
  fold_left (λ alternatives s,
      alternatives +:+ (if truthy_string alternatives then "," else "")
        +:+ (if spaused s then "~" else "") +:+ sid s)
    streams "".
Definition toString_streamlist (streams : list (list SimulcastStreamInfo)) : string :=
  fold_left (λ text alternatives,
      text +:+ (if truthy_string text then ";" else "") +:+ toString_alternatives alternatives)
    streams "".

Definition toString_simulcast (simulcast : SimulcastInfo) : Simulcast :=
  let send := SimulcastI.getSimulcastStreams simulcast SEND in
  let recv := SimulcastI.getSimulcastStreams simulcast RECV in
  let sendlist := {| sim_dir := Some "send"; sim_list := toString_streamlist send |} in
  let recvlist := {| sim_dir := Some "recv"; sim_list := toString_streamlist recv |} in
  match send, recv with
  | [], [] => {| dirlist1 := None; dirlist2 := None |}
  | _ :: _, [] => {| dirlist1 := Some sendlist; dirlist2 := None |}
  | [], _ :: _ => {| dirlist1 := Some recvlist; dirlist2 := None |}
  | _ :: _, _ :: _ => {| dirlist1 := Some sendlist; dirlist2 := Some recvlist |}
  end.

(** The body of the loop over [this.medias]: the media description of one
    media line, before the streams are attached. *)
Definition toString_media (self : SDPInfo) (media : MediaInfo)
  : completion MediaDescription :=
  let bandwidth :=
    if (0 <? MediaInfo_getBitrate media)%Z
    then [{| bw_type := "AS"; bw_limit := MediaInfo_getBitrate media |}]
    else [] in
  let candidates := toString_candidate <$> getCandidates self in
  this_ice ← deref "Cannot read properties of null (reading 'getUfrag')" (getICE self);
  this_dtls ← deref "Cannot read properties of null (reading 'getHash')" (getDTLS self);
  let lines := toString_codecs media in
  let payloads := join " " ((λ r, pretty (rtp_payload r)) <$> lines_rtp lines) in
  let ext := (λ e, {| ext_value := e.1; ext_uri := e.2 |}) <$> MediaInfo_getExtensions media in
  let rids := toString_rid <$> Map_values (MediaInfo_getRIDs media) in
  Returns {|
    md_type := MediaInfo_getType media;
    md_port := 9;
    md_protocol := "UDP/TLS/RTP/SAVPF";
    md_fmtp := lines_fmtp lines;
    md_rtp := lines_rtp lines;
    md_rtcpFb := lines_rtcpFb lines;
    md_ext := ext;
    md_bandwidth := bandwidth;
    md_candidates := candidates;
    md_ssrcGroups := [];
    md_ssrcs := [];
    md_rids := rids;
    md_direction := Some (Direction_toString (MediaInfo_getDirection media));
    md_rtcpMux := Some "rtcp-mux";
    md_rtcpRsize := Some "rtcp-rsize";
    md_mid := MediaInfo_getId media;
    md_iceUfrag := ICE.getUfrag this_ice;
    md_icePwd := ICE.getPwd this_ice;
    md_fingerprint := Some {| fp_type := hash this_dtls; fp_hash := fingerprint this_dtls |};
    md_setup := Some (Setup_toString (setup this_dtls));
    md_payloads := payloads;
    md_simulcast := toString_simulcast <$> MediaInfo_getSimulcast media;
    md_msid := None;
  |}.

(** [md.ssrcGroups.push(..)] for each group, [md.ssrcs.push(..)] for each
    line, and [md.msid = ..] when a value is given. *)
Definition md_attach (md : MediaDescription) (ssrcGroups : list SsrcGroup)
    (ssrcs : list Ssrc) (msid : option string) : MediaDescription :=
  {| md_type := md_type md; md_port := md_port md; md_protocol := md_protocol md;
     md_fmtp := md_fmtp md; md_rtp := md_rtp md; md_rtcpFb := md_rtcpFb md;
     md_ext := md_ext md; md_bandwidth := md_bandwidth md;
     md_candidates := md_candidates md;
     md_ssrcGroups := md_ssrcGroups md ++ ssrcGroups;
     md_ssrcs := md_ssrcs md ++ ssrcs;
     md_rids := md_rids md; md_direction := md_direction md; md_rtcpMux := md_rtcpMux md;
     md_rtcpRsize := md_rtcpRsize md; md_mid := md_mid md; md_iceUfrag := md_iceUfrag md;
     md_icePwd := md_icePwd md; md_fingerprint := md_fingerprint md;
     md_setup := md_setup md; md_payloads := md_payloads md;
     md_simulcast := md_simulcast md;
     md_msid := match msid with Some v => Some v | None => md_msid md end |}.

Definition toString_group (group : SourceGroupInfo) : SsrcGroup :=
  {| sg_semantics := SourceGroup.getSemantics group;
     sg_ssrcs := join " " (number_to_string <$> SourceGroup.getSSRCs group) |}.

Definition toString_cname (stream : StreamInfo) (ssrc : Z) : Ssrc :=
  {| ssrc_id := ssrc; ssrc_attribute := "cname"; ssrc_value := Some (Stream.getId stream) |}.

Definition toString_msid (stream : StreamInfo) (track : TrackInfo) : string :=
  Stream.getId stream +:+ " " +:+ to_string (Track.getId track).

(** What a track bound to a media line (unified plan) adds to that line. *)
Definition attach_unified (stream : StreamInfo) (track : TrackInfo) (md : MediaDescription)
  : MediaDescription :=
  md_attach md
    (toString_group <$> Track.getSourceGroups track)
    (toString_cname stream <$> Track.getSSRCs track)
    (Some (toString_msid stream track)).

(** What a track with no media id (plan B) adds to a media line. *)
Definition attach_planB (stream : StreamInfo) (track : TrackInfo) (md : MediaDescription)
  : MediaDescription :=
  md_attach md
    (toString_group <$> Track.getSourceGroups track)
    (flat_map (λ ssrc,
        [toString_cname stream ssrc;
         {| ssrc_id := ssrc; ssrc_attribute := "msid";
            ssrc_value := Some (toString_msid stream track) |}])
      (Track.getSSRCs track))
    None.

(** The loop over [sdp.media] for one track; both branches leave it with
    [break] after the first media description they attach to. *)
Fixpoint toString_track (stream : StreamInfo) (track : TrackInfo)
    (media : list MediaDescription) : list MediaDescription :=
  match media with
  | [] => []
  | md :: rest =>
      if truthy (Track.getMediaId track) then
        if bool_decide (Track.getMediaId track = Some (md_mid md))
        then attach_unified stream track md :: rest
        else md :: toString_track stream track rest
      else if String.eqb (toLowerCase (md_type md)) (toLowerCase (Track.getMedia track))
      then attach_planB stream track md :: rest
      else md :: toString_track stream track rest
  end.

(** The pass over every track of every stream. *)
Definition toString_streams (streams : list StreamInfo) (media : list MediaDescription)
  : list MediaDescription :=
  fold_left (λ media stream,
      fold_left (λ media track, toString_track stream track media)
        (Map_values (Stream.getTracks stream)) media)
    streams media.

(** The attribute tree that [toString] hands to [SDPTransform.write], given
    the reading of the clock, [(new Date()).getTime()], and the member
    [isLite] that the call [this.getICE().isLite()] finds on the ICEInfo:
    [this.getICE()] is dereferenced and the member called before the first
    media line is looked at. *)
Definition toString_sdp (now : Z) (isLite : ICEInfo → completion bool) (self : SDPInfo)
  : completion SDP :=
  this_ice ← deref "Cannot read properties of null (reading 'isLite')" (getICE self);
  is_lite ← isLite this_ice;
  media ← for_each (λ media m, md ← toString_media self m; Returns (media ++ [md]))
            (medias self) [];
  let media := toString_streams (Map_values (streams self)) media in
  let bundle :=
    {| group_type := "BUNDLE"; mids := join " " (MediaInfo_getId <$> medias self) |} in
  Returns {|
    sdp_version := 0;
    sdp_origin := Some {| username := "-"; sessionId := now; sessionVersion := version self;
                          netType := "IN"; ipVer := 4; address := "127.0.0.1" |};
    sdp_name := "semantic-sdp";
    sdp_connection := Some {| conn_version := 4; conn_ip := "0.0.0.0" |};
    sdp_timing := Some {| start := 0; stop := 0 |};
    sdp_icelite := if (is_lite : bool) then Some "ice-lite" else None;
    sdp_msidSemantic := Some {| semantic := "WMS"; token := "*" |};
    sdp_groups := [bundle];
    sdp_fingerprint := None;
    sdp_media := media;
  |}.

(** The same tree with another session id in its origin. *)
Definition with_sessionId (now : Z) (sdp : SDP) : SDP :=
  {| sdp_version := sdp_version sdp;
     sdp_origin :=
       (λ o, {| username := username o; sessionId := now;
                sessionVersion := sessionVersion o; netType := netType o;
                ipVer := ipVer o; address := address o |}) <$> sdp_origin sdp;
     sdp_name := sdp_name sdp; sdp_connection := sdp_connection sdp;
     sdp_timing := sdp_timing sdp; sdp_icelite := sdp_icelite sdp;
     sdp_msidSemantic := sdp_msidSemantic sdp; sdp_groups := sdp_groups sdp;
     sdp_fingerprint := sdp_fingerprint sdp; sdp_media := sdp_media sdp |}.

(** [toString()], the clock reading being given: the member that the call
    finds is the one of the ICEInfo class. *)
Definition toString (now : Z) (self : SDPInfo) : completion string :=
  sdp ← toString_sdp now ICE.isLite self;
  Returns (write sdp).

(** What the call [this.getICE().isLite()] throws: the ice is [null], or an
    ICEInfo, which has no [isLite]. *)
Definition isLite_error (G : SDPInfo) : exception :=
  TypeError (match getICE G with
             | Some _ => "isLite is not a function"
             | None => "Cannot read properties of null (reading 'isLite')"
             end).

(** *** SDPInfo.process *)

(** [params[param[0].trim()] = (param[1] || "").trim()] for one item of the
    list [fmtp.config.split(";")].  [params] is a plain object, [{}]: the
    assignment to its key [__proto__] goes to the setter it inherits from
    [Object.prototype], which ignores a value that is a string, so that this
    key is never stored; any other key becomes a property of the object. *)
Definition process_param (params : gmap string string) (item : string)
  : gmap string string :=
  let param := split "=" item in
  let key := trim (default "" (param !! 0%nat)) in
  let value := trim (default "" (param !! 1%nat)) in
  if String.eqb key "__proto__" then params else <[key := value]> params.

Definition process_config (params : gmap string string) (config : string)
  : gmap string string :=
  fold_left process_param (split ";" config) params.

(** The text of one parameter: [key=value], or [key] alone. *)
Definition param_text (kv : string * option string) : string :=
  kv.1 +:+ match kv.2 with Some v => "=" +:+ v | None => "" end.

(** The lexical condition on a parameter: neither its key nor its value
    holds a [=] or a [;]. *)
Definition plain_param (kv : string * option string) : Prop :=
  includes "=" kv.1 = false ∧ includes ";" kv.1 = false ∧
  ∀ v, kv.2 = Some v → includes "=" v = false ∧ includes ";" v = false.

(** Trimming, said without [trim]: the characters
    TAB, LF, VT, FF, CR and SP are white space; [raw] is [core] between two
    runs of white space, and [core] neither begins nor ends with one. *)
Definition white_space : list ascii := ["009"; "010"; "011"; "012"; "013"; " "]%char.

Fixpoint blank (s : string) : bool :=
  match s with
  | EmptyString => true
  | String c s' => bool_decide (c ∈ white_space) && blank s'
  end.

Fixpoint last_char (c : ascii) (s : string) : ascii :=
  match s with
  | EmptyString => c
  | String c' s' => last_char c' s'
  end.

Definition tight (s : string) : bool :=
  match s with
  | EmptyString => true
  | String c s' =>
      negb (bool_decide (c ∈ white_space)) &&
      negb (bool_decide (last_char c s' ∈ white_space))
  end.

Definition trims_to (raw core : string) : Prop :=
  ∃ before after,
    raw = before +:+ core +:+ after ∧ blank before = true ∧ blank after = true ∧
    tight core = true.

(** The parameter that one item of a config stands for: the key and the
    value that the texts on either side of the [=] trim to. *)
Definition stands_for (kv : string * option string) (param : string * string) : Prop :=
  trims_to kv.1 param.1 ∧ trims_to (default "" kv.2) param.2.

(** A plain object after [params[key] = value], [value] a string. *)
Definition assign (params : gmap string string) (param : string * string)
  : gmap string string :=
  if decide (param.1 = "__proto__") then params else <[param.1 := param.2]> params.

(** The format parameters of a payload type: every [fmtp] entry of that
    payload contributes, in order. *)
Definition process_fmtp (type : Z) (fmtp : list Fmtp) : gmap string string :=
  fold_left (λ params f,
      if bool_decide (fmtp_payload f = type)
      then process_config params (fmtp_config f)
      else params)
    fmtp ∅.

(** The body of the loop over [md.rtp]; [apts] maps the payload type an RTX
    entry points to, to the payload type of the RTX entry. *)
Definition process_rtp (md : MediaDescription) (st : MediaInfo * Map number Z) (fmt : Rtp)
  : MediaInfo * Map number Z :=
  let '(mediaInfo, apts) := st in
  let type := rtp_payload fmt in
  let codec := rtp_codec fmt in
  if String.eqb "RED" (toUpperCase codec) || String.eqb "ULPFEC" (toUpperCase codec)
  then st
  else
    let params := process_fmtp type (md_fmtp md) in
    if String.eqb "RTX" (toUpperCase codec)
    then (mediaInfo, Map_set (parseInt_opt (params !! "apt")) type apts)
    else (MediaInfo_addCodec mediaInfo (Codec.new codec type params), apts).

(** The body of the loop over [apts.entries()]: [setRTX] on the codec stored
    under the payload type, when there is one. *)
Definition process_apt (mediaInfo : MediaInfo) (apt : number * Z) : MediaInfo :=
  match MediaInfo_getCodecForType mediaInfo apt.1, apt.1 with
  | Some codecInfo, Num t =>
      MediaInfo_with_codecs mediaInfo
        (Map_set t (Codec.setRTX codecInfo apt.2) (codecs mediaInfo))
  | _, _ => mediaInfo
  end.

(** The codecs of a media line: the loop over [md.rtp], then the loop over
    [apts]. *)
Definition process_codecs (md : MediaDescription) (mediaInfo : MediaInfo) : MediaInfo :=
  let '(mediaInfo, apts) := fold_left (process_rtp md) (md_rtp md) (mediaInfo, []) in
  fold_left process_apt apts mediaInfo.

Definition process_ext (mediaInfo : MediaInfo) (extmap : Ext) : MediaInfo :=
  MediaInfo_addExtension mediaInfo (ext_value extmap) (ext_uri extmap).

Definition process_rid (mediaInfo : MediaInfo) (rid : Rid) : MediaInfo :=
  let ridInfo := RID.new (rid_id rid) (DirectionWay_byValue (rid_direction rid)) in
  let ridInfo :=
    if truthy (rid_params rid) then
      let items := parseParams (to_string (rid_params rid)) in
      let '(formats, params) :=
        fold_left (λ (acc : list string * Map string string) kv,
            if String.eqb kv.1 "pt" then (split "," kv.2, acc.2)
            else (acc.1, Map_set kv.1 kv.2 acc.2))
          items ([], []) in
      RID.setParams (RID.setFormats ridInfo formats) params
    else ridInfo in
  MediaInfo_addRID mediaInfo ridInfo.

(** One [dirN]/[listN] pair of the simulcast attribute. *)
Definition process_dirlist (simulcast : SimulcastInfo) (dl : option SimulcastList)
  : SimulcastInfo :=
  match dl with
  | Some dl =>
      if truthy (sim_dir dl) then
        let direction := DirectionWay_byValue (to_string (sim_dir dl)) in
        let sets := parseSimulcastStreamList (sim_list dl) in
        fold_left (λ simulcast alternatives,
            SimulcastI.addSimulcastAlternativeStreams simulcast direction
              ((λ s, {| sid := scid s; spaused := paused s |}) <$> alternatives))
          sets simulcast
      else simulcast
  | None => simulcast
  end.

(** The encoding of one sending simulcast stream, when its RID is known. *)
Definition process_encoding (mediaInfo : MediaInfo) (stream : SimulcastStreamInfo)
  : option TrackEncodingInfo :=
  let encoding := TrackEncoding.new (sid stream) (spaused stream) in
  match MediaInfo_getRID mediaInfo (TrackEncoding.getId encoding) with
  | Some ridInfo =>
      let encoding :=
        fold_left (λ encoding format,
            match MediaInfo_getCodecForType mediaInfo format with
            | Some codecInfo => TrackEncoding.addCodec encoding codecInfo
            | None => encoding
            end)
          (RID.getFormats ridInfo) encoding in
      Some (TrackEncoding.setParams encoding (RID.getParams ridInfo))
  | None => None
  end.

(** The simulcast of a media line and the sending encodings it gives. *)
Definition process_simulcast (md : MediaDescription) (mediaInfo : MediaInfo)
  : MediaInfo * list (list TrackEncodingInfo) :=
  match md_simulcast md with
  | Some s =>
      let simulcast := process_dirlist SimulcastI.new (dirlist1 s) in
      let simulcast := process_dirlist simulcast (dirlist2 s) in
      let encodings :=
        fold_left (λ encodings streams,
            match omap (process_encoding mediaInfo) streams with
            | [] => encodings
            | alternatives => encodings ++ [alternatives]
            end)
          (SimulcastI.getSimulcastStreams simulcast SEND) [] in
      (MediaInfo_setSimulcast mediaInfo simulcast, encodings)
  | None => (mediaInfo, [])
  end.

(** The stream and the track of an msid, looked up or created, with the
    update [f] applied to the track.  A stream or a track that exists is
    changed where it is; a new one is added by [addStream], [addTrack].
    [init] prepares a track that has just been created. *)
Definition with_track (sdpInfo : SDPInfo) (streamId : string) (trackId : option string)
    (media : string) (init f : TrackInfo → TrackInfo) : SDPInfo :=
  let stream :=
    match getStream sdpInfo streamId with
    | Some stream => stream
    | None => Stream.new streamId
    end in
  let track :=
    match Stream.getTrack stream trackId with
    | Some track => track
    | None => init (Track.new media trackId)
    end in
  let stream :=
    {| stream_id := stream_id stream;
       tracks := Map_set trackId (f track) (tracks stream) |} in
  with_streams sdpInfo (Map_set streamId stream (streams sdpInfo)).

(** The body of the loop over [md.ssrcs]; [sources] is the temporal source
    list. *)
Definition process_ssrc (md : MediaDescription) (encodings : list (list TrackEncodingInfo))
    (st : SDPInfo * Map Z SourceInfo) (ssrcAttr : Ssrc)
  : completion (SDPInfo * Map Z SourceInfo) :=
  let '(sdpInfo, sources) := st in
  let ssrc := ssrc_id ssrcAttr in
  let key := ssrc_attribute ssrcAttr in
  let value := ssrc_value ssrcAttr in
  let '(source, sources) :=
    match Map_get ssrc sources with
    | Some source => (source, sources)
    | None => let source := Source.new ssrc in
              (source, Map_set (Source.getSSRC source) source sources)
    end in
  if String.eqb "cname" (toLowerCase key) then
    Returns (sdpInfo, Map_set ssrc (Source.setCName source value) sources)
  else if String.eqb "msid" (toLowerCase key) then
    v ← deref "Cannot read properties of undefined (reading 'split')" value;
    let ids := split " " v in
    let streamId := default "" (ids !! 0%nat) in
    let trackId := ids !! 1%nat in
    let source := Source.setTrackId (Source.setStreamId source (Some streamId)) trackId in
    let sdpInfo :=
      with_track sdpInfo streamId trackId (md_type md)
        (λ track, Track.setEncodings track encodings)
        (λ track, Track.addSSRC track ssrc) in
    Returns (sdpInfo, Map_set ssrc source sources)
  else Returns (sdpInfo, sources).

(** The body of the loop over [sources.entries()] under a global msid: a
    source that no stream has claimed goes to the track of the media line. *)
Definition process_unclaimed (streamId : string) (trackId : option string)
    (st : list Z * Map Z SourceInfo) (entry : Z * SourceInfo) : list Z * Map Z SourceInfo :=
  let '(ssrc, source) := entry in
  if truthy (Source.getStreamId source) then st
  else
    let source := Source.setTrackId (Source.setStreamId source (Some streamId)) trackId in
    (st.1 ++ [ssrc], Map_set ssrc source st.2).

(** The global msid of a media line. *)
Definition process_msid (md : MediaDescription) (encodings : list (list TrackEncodingInfo))
    (st : SDPInfo * Map Z SourceInfo) : SDPInfo * Map Z SourceInfo :=
  let '(sdpInfo, sources) := st in
  if truthy (md_msid md) then
    let ids := split " " (to_string (md_msid md)) in
    let streamId := default "" (ids !! 0%nat) in
    let trackId := ids !! 1%nat in
    let '(added, sources') :=
      fold_left (process_unclaimed streamId trackId) sources ([], sources) in
    let sdpInfo :=
      with_track sdpInfo streamId trackId (md_type md)
        (λ track, Track.setEncodings (Track.setMediaId track (md_mid md)) encodings)
        (λ track, fold_left Track.addSSRC added track) in
    (sdpInfo, sources')
  else st.

(** The first ssrc that an ssrc-group lists, as [parseInt] reads it. *)
Definition first_ssrc (ssrcGroupAttr : SsrcGroup) : number :=
  parseInt (default "" (split " " (sg_ssrcs ssrcGroupAttr) !! 0%nat)).

(** A source list gives the ssrc [k] no stream: it has no source for [k], or
    one whose stream id was never set. *)
Definition unclaimed (k : Z) (sources : Map Z SourceInfo) : Prop :=
  ∀ source, Map_get k sources = Some source → Source.getStreamId source = None.

(** A media description records no source with an msid for the ssrc [k]: none
    of its ssrc lines gives [k] an msid and, if the media description has an
    msid of its own, none of its ssrc lines is about [k] at all. *)
Definition no_msid_record (md : MediaDescription) (k : Z) : Prop :=
  (∀ a, a ∈ md_ssrcs md → ssrc_id a = k → toLowerCase (ssrc_attribute a) ≠ "msid") ∧
  (truthy (md_msid md) = true → ∀ a, a ∈ md_ssrcs md → ssrc_id a ≠ k).

(** The body of the loop over [md.ssrcGroups]: the group goes to the track of
    the source of its first ssrc. *)
Definition process_ssrcGroup (sources : Map Z SourceInfo) (sdpInfo : SDPInfo)
    (ssrcGroupAttr : SsrcGroup) : completion SDPInfo :=
  let ssrcs := split " " (sg_ssrcs ssrcGroupAttr) in
  let group := SourceGroup.new (sg_semantics ssrcGroupAttr) ssrcs in
  let first :=
    match parseInt (default "" (ssrcs !! 0%nat)) with
    | Num n => Map_get n sources
    | NaN => None
    end in
  source ← deref "Cannot read properties of undefined (reading 'getStreamId')" first;
  stream ← deref "Cannot read properties of undefined (reading 'getTrack')"
             (s ← Source.getStreamId source; getStream sdpInfo s);
  track ← deref "Cannot read properties of undefined (reading 'addSourceGroup')"
            (Stream.getTrack stream (Source.getTrackId source));
  let stream :=
    {| stream_id := stream_id stream;
       tracks := Map_set (Source.getTrackId source) (Track.addSourceGroup track group)
                   (tracks stream) |} in
  Returns (with_streams sdpInfo
             (Map_set (default "" (Source.getStreamId source)) stream (streams sdpInfo))).

(** The body of the loop over [sdp.media]. *)
Definition process_media (sdp : SDP) (sdpInfo : SDPInfo) (md : MediaDescription)
  : completion SDPInfo :=
  let media := md_type md in
  let mid := md_mid md in
  let mediaInfo := MediaInfo_new mid media in
  let sdpInfo := setICE sdpInfo (Some (ICE.new (md_iceUfrag md) (md_icePwd md))) in
  fingerprintAttr ← deref "Cannot read properties of undefined (reading 'type')"
                      (match md_fingerprint md with
                       | Some f => Some f
                       | None => sdp_fingerprint sdp
                       end);
  let setup :=
    if truthy (md_setup md) then Setup_byValue (to_string (md_setup md))
    else Setup_ACTPASS in
  let sdpInfo :=
    setDTLS sdpInfo
      (Some {| setup := setup; hash := fp_type fingerprintAttr;
               fingerprint := fp_hash fingerprintAttr |}) in
  let direction :=
    if truthy (md_direction md) then Direction_byValue (to_string (md_direction md))
    else Direction_SENDRECV in
  let mediaInfo := MediaInfo_setDirection mediaInfo direction in
  let mediaInfo := process_codecs md mediaInfo in
  let mediaInfo := fold_left process_ext (md_ext md) mediaInfo in
  let mediaInfo := fold_left process_rid (md_rids md) mediaInfo in
  let '(mediaInfo, encodings) := process_simulcast md mediaInfo in
  st ← for_each (process_ssrc md encodings) (md_ssrcs md) (sdpInfo, []);
  let '(sdpInfo, sources) := process_msid md encodings st in
  sdpInfo ← for_each (process_ssrcGroup sources) (md_ssrcGroups md) sdpInfo;
  Returns (addMedia sdpInfo mediaInfo).

(** [process] on the tree that [SDPTransform.parse] gives. *)
Definition process_sdp (sdp : SDP) : completion SDPInfo :=
  let sdpInfo := setVersion (new None) (sdp_version sdp) in
  for_each (process_media sdp) (sdp_media sdp) sdpInfo.

Definition process (text : string) : completion SDPInfo :=
  process_sdp (parse text).

End Session.

(** A media description that carries only codec lines. *)
Definition md_codecs (type mid : string) (rtp : list Rtp) (fmtp : list Fmtp)
  : MediaDescription :=
  {| md_type := type; md_port := 9; md_protocol := "UDP/TLS/RTP/SAVPF"; md_fmtp := fmtp;
     md_rtp := rtp; md_rtcpFb := []; md_ext := []; md_bandwidth := []; md_candidates := [];
     md_ssrcGroups := []; md_ssrcs := []; md_rids := []; md_direction := None;
     md_rtcpMux := None; md_rtcpRsize := None; md_mid := mid; md_iceUfrag := None;
     md_icePwd := None; md_fingerprint := None; md_setup := None; md_payloads := "";
     md_simulcast := None; md_msid := None |}.

(** [SDPInfo.process(G.toString())] *)
Definition roundtrip `{Enumerations} `{!Collaborators} `{SDPTransform} (now : Z)
    (G : SDPInfo) : completion SDPInfo :=
  text ← toString now G; process text.

(** ** Stand-ins to run the code on examples

    The examples below need some enumeration, some collaborators and some
    sdp-transform to be closed terms; nothing in them depends on which. *)

Definition demo_enums : Enumerations := {|
  Setup := string;
  Setup_ACTPASS := "actpass";
  Setup_byValue := λ s, s;
  Setup_toString := λ s, s;
  Direction := string;
  Direction_SENDRECV := "sendrecv";
  Direction_byValue := λ s, s;
  Direction_toString := λ s, s;
  DirectionWay_byValue := λ s, if String.eqb s "recv" then RECV else SEND;
  DirectionWay_toString := λ d, match d with SEND => "send" | RECV => "recv" end;
|}.

Definition demo_collab : @Collaborators demo_enums := {|
  PlainObject := unit;
  Supported := unit;
  MediaInfo_clone := λ m, Returns m;
  MediaInfo_plain := λ _, Returns tt;
  MediaInfo_answer := λ m _, Returns m;
  CandidateInfo_clone := λ c, Returns c;
  CandidateInfo_plain := λ _, Returns tt;
  DTLSInfo_clone := λ d, Returns d;
  DTLSInfo_plain := λ _, Returns tt;
|}.

Definition demo_transform : SDPTransform := {|
  write := λ sdp, sdp_name sdp;
  parse := λ text,
    {| sdp_version := 0; sdp_origin := None; sdp_name := text; sdp_connection := None;
       sdp_timing := None; sdp_icelite := None; sdp_msidSemantic := None; sdp_groups := [];
       sdp_fingerprint := None; sdp_media := [] |};
  parseParams := λ _, [];
  parseSimulcastStreamList := λ _, [];
|}.

Definition demo_media (id type : string) (cs : list CodecInfo) : @MediaInfo demo_enums :=
  fold_left MediaInfo_addCodec cs (MediaInfo_new id type).

Definition demo_dtls : @DTLSInfo demo_enums :=
  {| setup := Setup_byValue "passive"; hash := "sha-256"; fingerprint := "F2:AA" |}.

Definition demo_session (ms : list (@MediaInfo demo_enums)) (ss : list StreamInfo)
  : @SDPInfo demo_enums :=
  fold_left addStream ss
    (fold_left addMedia ms
       (setDTLS (setICE (new None) (Some (ICE.new (Some "u") (Some "p")))) (Some demo_dtls))).

Definition opus : CodecInfo := Codec.new "opus" 111 ∅.
Definition vp8 : CodecInfo := Codec.new "VP8" 96 ∅.
Definition video1 : MediaDescription := md_codecs "video" "v1" [] [].
Definition video2 : MediaDescription := md_codecs "video" "v2" [] [].
Definition audio1 : MediaDescription := md_codecs "audio" "a1" [] [].
Definition stream1 : StreamInfo := Stream.new "s1".
Definition planB_track : TrackInfo := Track.addSSRC (Track.new "video" (Some "t1")) 1000.
Definition unified_track : TrackInfo :=
  Track.setMediaId (Track.addSSRC (Track.new "video" (Some "t2")) 2000) "v2".
Definition audio_session : SDPInfo := demo_session [demo_media "a" "audio" [opus]] [].
Definition red : CodecInfo := Codec.new "red" 116 ∅.
Definition grouped_track : TrackInfo :=
  Track.addSourceGroup (Track.addSSRC planB_track 1001)
    (SourceGroup.new "FID" ["1000"; "1001"]).
Definition call_session : SDPInfo :=
  demo_session [demo_media "a1" "audio" [opus]; demo_media "v2" "video" [vp8]]
    [Stream.addTrack (Stream.addTrack stream1 grouped_track) unified_track].
Definition red_session : SDPInfo := demo_session [demo_media "v" "video" [red; vp8]] [].


(** ** What the round trip is stated with *)

Section RoundTripTerms.
Context {enums : Enumerations}.


(** Every track with its stream, in the order of the pass of [toString]. *)
Definition all_tracks (streams : list StreamInfo) : list (StreamInfo * TrackInfo) :=
  flat_map (λ stream, (λ track, (stream, track)) <$> Map_values (Stream.getTracks stream))
    streams.



(** One turn of the pass: the loop over [sdp.media] for one track. *)
Definition step (media : list MediaDescription) (st : StreamInfo * TrackInfo)
  : list MediaDescription :=
  toString_track st.1 st.2 media.

(** The key of a track in a session, and what the round trip compares of a
    track: its ssrcs and its source groups. *)
Definition key (st : StreamInfo * TrackInfo) : string * option string :=
  (Stream.getId st.1, Track.getId st.2).









(** A codec is stored under its payload type and is none of the names that
    [process] sets aside. *)
Definition codec_ok (kv : Z * CodecInfo) : Prop :=
  Codec.getType kv.2 = kv.1 ∧
  toUpperCase (Codec.getCodec kv.2) ≠ "RED" ∧
  toUpperCase (Codec.getCodec kv.2) ≠ "ULPFEC" ∧
  toUpperCase (Codec.getCodec kv.2) ≠ "RTX".

Definition media_ok (m : MediaInfo) : Prop :=
  NoDup (codecs m).*1 ∧ Forall codec_ok (codecs m).





(** What the round trip keeps of a media line: its id, its type and the
    payload types of its codecs, in order; and of a track: its ssrcs and its
    source groups. *)
Definition same_media (m' m : MediaInfo) : Prop :=
  m_id m' = m_id m ∧ m_type m' = m_type m ∧ (codecs m').*1 = (codecs m).*1.



End RoundTripTerms.

(** ** What the properties of the serializer and of the parser are stated with *)

(** A media description without what the pass over the tracks writes: its
    ssrc-groups, its ssrc attributes and its msid. *)
Definition media_level (md : MediaDescription) : MediaDescription :=
  {| md_type := md_type md; md_port := md_port md; md_protocol := md_protocol md;
     md_fmtp := md_fmtp md; md_rtp := md_rtp md; md_rtcpFb := md_rtcpFb md;
     md_ext := md_ext md; md_bandwidth := md_bandwidth md;
     md_candidates := md_candidates md; md_ssrcGroups := []; md_ssrcs := [];
     md_rids := md_rids md; md_direction := md_direction md; md_rtcpMux := md_rtcpMux md;
     md_rtcpRsize := md_rtcpRsize md; md_mid := md_mid md; md_iceUfrag := md_iceUfrag md;
     md_icePwd := md_icePwd md; md_fingerprint := md_fingerprint md;
     md_setup := md_setup md; md_payloads := md_payloads md;
     md_simulcast := md_simulcast md; md_msid := None |}.

(** The text of one simulcast stream in a stream list, and of one parameter
    of a rid. *)
Definition alternative_text (s : SimulcastStreamInfo) : string :=
  (if spaused s then "~" else "") +:+ sid s.
Definition rid_param_text (kv : string * string) : string := kv.1 +:+ "=" +:+ kv.2.

(** The fmtp lines that [toString] writes for a codec: the [apt] of its RTX
    payload type, when it has one; and the codec as it is read back from
    what [toString] writes, its parameters not being written. *)
Definition apt_lines (c : CodecInfo) : list Fmtp :=
  match Codec.getRTX c with
  | Some r => [{| fmtp_payload := r; fmtp_config := "apt=" +:+ pretty (Codec.getType c) |}]
  | None => []
  end.
Definition written_codec (c : CodecInfo) : CodecInfo :=
  {| codec := Codec.getCodec c; type := Codec.getType c; params := ∅;
     rtx := Codec.getRTX c |}.

Section CoverageTerms.
Context {enums : Enumerations}.

(** What the loop of [process] over [md.rtp] does with the rtpmap entries
    that [toString] wrote for one codec. *)
Definition read_codec (st : MediaInfo * Map number Z) (c : CodecInfo)
  : MediaInfo * Map number Z :=
  (MediaInfo_addCodec st.1 (Codec.new (Codec.getCodec c) (Codec.getType c) ∅),
   match Codec.getRTX c with
   | Some r => Map_set (Num (Codec.getType c)) r st.2
   | None => st.2
   end).

End CoverageTerms.

(** ** More examples *)

Definition demo_fingerprint : Fingerprint := {| fp_type := "sha-256"; fp_hash := "F2:AA" |}.

(** A tree with the given session-level fingerprint and media descriptions. *)
Definition demo_tree (fp : option Fingerprint) (media : list MediaDescription) : SDP :=
  {| sdp_version := 0; sdp_origin := None; sdp_name := "-"; sdp_connection := None;
     sdp_timing := None; sdp_icelite := None; sdp_msidSemantic := None; sdp_groups := [];
     sdp_fingerprint := fp; sdp_media := media |}.

Definition vp8_rtx : CodecInfo := Codec.setRTX (Codec.new "VP8" 96 {["max-fr" := "30"]}) 97.
Definition rtx_media : @MediaInfo demo_enums := demo_media "v" "video" [vp8_rtx].
Definition rtx_line : MediaDescription :=
  md_codecs "video" "v" (lines_rtp (toString_codecs rtx_media))
    (lines_fmtp (toString_codecs rtx_media)).
Definition ext_media : @MediaInfo demo_enums :=
  MediaInfo_addExtension (MediaInfo_addExtension (MediaInfo_new "v" "video") 1 "urn:a")
    2 "urn:b".
Definition cname_line : MediaDescription :=
  md_attach video1 [] [toString_cname stream1 1000] None.
Definition msid_line_without_value : MediaDescription :=
  md_attach video1 []
    [{| ssrc_id := 1000; ssrc_attribute := "MSID"; ssrc_value := None |}] None.
Definition empty_track : TrackInfo := Track.new "video" (Some "t0").
Definition ice_only : @AnswerParams demo_enums demo_collab :=
  {| params_ice := Some (ICE.new (Some "u") (Some "p")); params_dtls := None;
     params_candidates := None; params_capabilities := Some ∅ |}.
Definition no_capabilities : @AnswerParams demo_enums demo_collab :=
  {| params_ice := None; params_dtls := None; params_candidates := None;
     params_capabilities := None |}.
Definition lite_session : @SDPInfo demo_enums :=
  setVersion
    (addCandidate
       (setICE call_session (Some (ICE.setLite (ICE.new (Some "u") (Some "p")) true)))
       {| foundation := "1"; componentId := 1; transport := "udp"; priority := 1;
          caddress := "10.0.0.1"; port := 5000; ctype := "host" |})
    7.

(** A member [isLite] that answers as [getLite] does: what the call of
    [toString] would find on an ICEInfo that declared it. *)
Definition isLite_getLite (self : ICEInfo) : completion bool := Returns (ICE.getLite self).


(** What [toString] builds for [lite_session] with that member, and what
    [process] reads from it. *)
Definition lite_tree : SDP :=
  Eval vm_compute in
    match @toString_sdp demo_enums 0 isLite_getLite lite_session with
    | Returns tree => tree
    | Throws _ => demo_tree None []
    end.
Definition lite_back : @SDPInfo demo_enums :=
  Eval vm_compute in
    match @process_sdp demo_enums demo_transform lite_tree with
    | Returns G => G
    | Throws _ => new None
    end.

(** * Properties *)

Section Properties.
Context {enums : Enumerations} {collab : Collaborators} {transform : SDPTransform}.

(** ** Loops that may throw *)

Lemma bind_throws {A B} (m : completion A) (k : A → completion B) :
  throws m → throws (m ≫= k).
Proof. intros [e ->]. by exists e. Qed.

Lemma bind_throws_cont {A B} (m : completion A) (k : A → completion B) :
  (∀ a, throws (k a)) → throws (m ≫= k).
Proof.
  intros Hk. destruct m as [a|e]; simpl.
  - apply Hk.
  - by exists e.
Qed.

(** A loop throws as soon as one of its elements makes the body throw
    whatever the state: the earlier iterations return or throw themselves. *)
Lemma for_each_throws {A S} (body : S → A → completion S) (xs : list A) (x : A) :
  x ∈ xs → (∀ s, throws (body s x)) → ∀ s, throws (for_each body xs s).
Proof.
  intros Hin Hx. induction xs as [|y ys IH]; intros s.
  - by apply elem_of_nil in Hin.
  - apply elem_of_cons in Hin as [<-|Hin]; simpl.
    + by apply bind_throws.
    + apply bind_throws_cont. intros s'. by apply IH.
Qed.

Lemma for_each_nonempty_throws {A S} (body : S → A → completion S) (xs : list A) :
  xs ≠ [] → (∀ s x, throws (body s x)) → ∀ s, throws (for_each body xs s).
Proof.
  intros Hne Hb s. destruct xs as [|x xs]; [done|].
  apply (for_each_throws body (x :: xs) x); [left | by intros]. 
Qed.

(** ** The session object *)

(** C10. [getMediaById] never hands back a media of the session: on a match
    (ids compared in lower case) it returns the field [this.media], which is
    [undefined], and with no match it returns [null]. *)
Theorem getMediaById_never_the_media (self : SDPInfo) (msid : string) :
  getMediaById self msid =
    (if existsb (λ media, String.eqb (toLowerCase (MediaInfo_getId media)) (toLowerCase msid))
          (medias self)
     then Undefined else Null)
  ∧ ∀ media, getMediaById self msid ≠ Object media.
Proof.
  unfold getMediaById.
  assert (Hloop : ∀ ms, getMediaById_loop self msid ms =
            if existsb (λ media, String.eqb (toLowerCase (MediaInfo_getId media))
                                   (toLowerCase msid)) ms
            then Undefined else Null).
  { induction ms as [|m ms IH]; simpl; [done|].
    destruct (String.eqb _ _); simpl; [done | apply IH]. }
  split; [apply Hloop|].
  intros media. rewrite Hloop. by destruct (existsb _ _).
Qed.

(** [clone] ends with [this.ice.clone()]: it throws on every session, the ice
    being [null] or an ICEInfo, which has no [clone]. *)
Lemma clone_throws (self : SDPInfo) : throws (clone self).
Proof.
  unfold clone.
  do 3 (apply bind_throws_cont; intros ?).
  destruct (ice self) as [i|]; simpl; by eexists.
Qed.

(** [plain] on what the constructor gives. *)
Lemma plain_new (v : option Z) :
  plain (new v) =
    Returns {| plain_version := version (new v); plain_streams := []; plain_medias := [];
               plain_candidates := []; plain_ice := None; plain_dtls := None |}.
Proof. reflexivity. Qed.

(** C9. [clone()] throws on every session, so on every session whose ice or
    dtls is [null]; and [plain()] throws as well as soon as the session
    announces a stream, StreamInfo having no [plain], or has an ice, ICEInfo
    having no [plain]. *)
Theorem clone_and_plain_throw (self : SDPInfo) :
  throws (clone self) ∧
  (streams self ≠ [] ∨ ice self ≠ None → throws (plain self)).
Proof.
  split; [apply clone_throws|].
  unfold plain. intros [Hs|Hi]; apply bind_throws_cont; intros ms.
  - apply bind_throws. apply for_each_nonempty_throws.
    + unfold Map_values. by destruct (streams self).
    + intros acc stream. by eexists.
  - do 2 (apply bind_throws_cont; intros ?).
    destruct (ice self) as [i|]; [|done]. by eexists.
Qed.

Lemma addCandidates_candidates (cs : list CandidateInfo) (self : SDPInfo) :
  addCandidates self cs =
    {| version := version self; streams := streams self; medias := medias self;
       candidates := candidates self ++ cs; ice := ice self; dtls := dtls self |}.
Proof.
  unfold addCandidates. revert self.
  induction cs as [|c cs IH]; intros self; simpl.
  - rewrite app_nil_r. by destruct self.
  - rewrite IH. simpl. by rewrite <- app_assoc.
Qed.

(** C6. With ice, dtls, candidates and capabilities given, [answer] returns a
    session with that ice, that dtls and those candidates, whose medias are, in
    the order of the offer, the answers of the offered medias to the
    capabilities of their types. *)
Theorem answer_of_offer (offer : SDPInfo) (i : ICEInfo) (d : DTLSInfo)
    (cs : list CandidateInfo) (caps : gmap string Supported) (answered : list MediaInfo) :
  Forall2 (λ media a,
      MediaInfo_answer media (caps !! MediaInfo_getType media) = Returns a)
    (medias offer) answered →
  answer offer (Some {| params_ice := Some i; params_dtls := Some d;
                        params_candidates := Some cs; params_capabilities := Some caps |})
  = Returns {| version := 1; streams := []; medias := answered; candidates := cs;
               ice := Some i; dtls := Some d |}.
Proof.
  intros Hall. unfold answer. simpl. rewrite addCandidates_candidates. simpl.
  match goal with
  | |- for_each ?body _ _ = _ =>
      assert (Hloop : ∀ acc, for_each body (medias offer) acc =
                Returns {| version := version acc; streams := streams acc;
                           medias := medias acc ++ answered;
                           candidates := candidates acc; ice := ice acc; dtls := dtls acc |})
  end.
  { induction Hall as [|media a ms ans Ha _ IH]; intros acc; simpl.
    - rewrite app_nil_r. by destruct acc.
    - rewrite Ha. simpl. rewrite IH. simpl. by rewrite <- app_assoc. }
  by rewrite Hloop.
Qed.

(** ** Strings and maps *)

Lemma split_without (sep : ascii) (s : string) :
  includes sep s = false → split sep s = [s].
Proof.
  induction s as [|c s IH]; simpl; [done|].
  intros [Hc Hs]%orb_false_iff. rewrite Hc. by rewrite (IH Hs).
Qed.

Lemma split_at (sep : ascii) (k v : string) :
  includes sep k = false → split sep (k +:+ String sep v) = k :: split sep v.
Proof.
  induction k as [|c k IH]; simpl.
  - intros _. by rewrite Ascii.eqb_refl.
  - intros [Hc Hk]%orb_false_iff. rewrite Hc. by rewrite (IH Hk).
Qed.

Lemma split_nonempty (sep : ascii) (s : string) : split sep s ≠ [].
Proof.
  destruct s as [|c s]; simpl; [done|].
  destruct (Ascii.eqb c sep); [done|]. by destruct (split sep s).
Qed.

Lemma split_join (sep : ascii) (x : string) (xs : list string) :
  Forall (λ y, includes sep y = false) (x :: xs) →
  split sep (join (String sep EmptyString) (x :: xs)) = x :: xs.
Proof.
  revert x. induction xs as [|y ys IH]; intros x Hall.
  - simpl. apply split_without. by inversion Hall.
  - inversion Hall as [|? ? Hx Hrest]; subst.
    change (join (String sep EmptyString) (x :: y :: ys))
      with (x +:+ String sep (join (String sep EmptyString) (y :: ys))).
    rewrite split_at by done. by rewrite IH.
Qed.

Section MapFacts.
Context {K V : Type} `{EqDecision K}.
Implicit Types (m : Map K V) (k : K) (v : V).

Lemma Map_get_set_eq m k v : Map_get k (Map_set k v m) = Some v.
Proof.
  induction m as [|[k' v'] m IH]; simpl.
  - by rewrite decide_True.
  - destruct (decide (k' = k)) as [->|Hne]; simpl.
    + by rewrite decide_True.
    + by rewrite decide_False.
Qed.

Lemma Map_get_set_ne m k k' v : k ≠ k' → Map_get k' (Map_set k v m) = Map_get k' m.
Proof.
  intros Hne. induction m as [|[k0 v0] m IH]; simpl.
  - by rewrite decide_False.
  - destruct (decide (k0 = k)) as [->|Hne0]; simpl.
    + by rewrite !decide_False.
    + destruct (decide (k0 = k')); [done | apply IH].
Qed.

Lemma Map_get_None m k : Map_get k m = None ↔ k ∉ m.*1.
Proof.
  induction m as [|[k0 v0] m IH]; simpl.
  - split; [intros _; apply not_elem_of_nil | done].
  - rewrite not_elem_of_cons. destruct (decide (k0 = k)) as [->|Hne].
    + split; [done | by intros [? _]].
    + rewrite IH. split; [by intros | by intros [_ ?]].
Qed.

Lemma Map_set_keys_old m k v : k ∈ m.*1 → (Map_set k v m).*1 = m.*1.
Proof.
  induction m as [|[k0 v0] m IH]; csimpl.
  - by intros ?%elem_of_nil.
  - intros Hin. destruct (decide (k0 = k)) as [->|Hne]; csimpl; [done|].
    apply elem_of_cons in Hin as [->|Hin]; [done|]. by rewrite IH.
Qed.

Lemma Map_set_keys_new m k v : k ∉ m.*1 → (Map_set k v m).*1 = m.*1 ++ [k].
Proof.
  induction m as [|[k0 v0] m IH]; csimpl; [done|].
  intros [Hne Hnin]%not_elem_of_cons.
  rewrite decide_False by done. csimpl. by rewrite IH.
Qed.

(** A Map built with [set] holds each key once. *)
Lemma Map_set_NoDup m k v : NoDup m.*1 → NoDup (Map_set k v m).*1.
Proof.
  intros Hnd. destruct (decide (k ∈ m.*1)) as [Hin|Hnin].
  - by rewrite Map_set_keys_old.
  - rewrite Map_set_keys_new by done.
    apply NoDup_app. split_and!; [done | | apply NoDup_singleton].
    by intros x Hx ->%list_elem_of_singleton.
Qed.

End MapFacts.

Lemma includes_app (c : ascii) (a b : string) :
  includes c (a +:+ b) = includes c a || includes c b.
Proof.
  induction a as [|x a IH]; simpl; [done|]. by rewrite IH, orb_assoc.
Qed.

(** ** The parser: format parameters and RTX *)

Lemma append_empty_r (s : string) : s +:+ "" = s.
Proof.
  induction s as [|c s IH]; [done|].
  change (String c (s +:+ "") = String c s). by rewrite IH.
Qed.

Lemma process_param_split (params : gmap string string) (kv : string * option string) :
  plain_param kv →
  process_param params (param_text kv)
  = if String.eqb (trim kv.1) "__proto__" then params
    else <[trim kv.1 := trim (default "" kv.2)]> params.
Proof.
  destruct kv as [k [v|]]; intros (Hk & _ & Hv); unfold process_param, param_text;
    cbn [fst snd] in *.
  - destruct (Hv v eq_refl) as [Hv' _].
    change (k +:+ "=" +:+ v) with (k +:+ String "=" v).
    rewrite split_at by done. rewrite (split_without _ v) by done. done.
  - rewrite append_empty_r. by rewrite split_without.
Qed.

Lemma param_text_no_semicolon (kv : string * option string) :
  plain_param kv → includes ";" (param_text kv) = false.
Proof.
  destruct kv as [k [v|]]; intros (_ & Hk & Hv); unfold param_text; cbn [fst snd] in *.
  - destruct (Hv v eq_refl) as [_ Hv']. rewrite includes_app, Hk. simpl. done.
  - by rewrite includes_app, Hk.
Qed.

(** [trim] against the white space of the language, character by character. *)
Lemma is_space_white (c : ascii) : is_space c = bool_decide (c ∈ white_space).
Proof. by destruct c as [[] [] [] [] [] [] [] []]; vm_compute. Qed.

Lemma trimStart_blank (before s : string) :
  blank before = true → trimStart (before +:+ s) = trimStart s.
Proof.
  induction before as [|c before IH]; [done|]. cbn [blank].
  intros [Hc Hrest]%andb_prop. change (String c before +:+ s) with (String c (before +:+ s)).
  cbn [trimStart]. rewrite is_space_white, Hc. by apply IH.
Qed.

Lemma trimStart_tight (c : ascii) (s : string) :
  bool_decide (c ∈ white_space) = false → trimStart (String c s) = String c s.
Proof. intros Hc. cbn [trimStart]. by rewrite is_space_white, Hc. Qed.

Lemma trimEnd_blank (after : string) : blank after = true → trimEnd after = "".
Proof.
  induction after as [|c after IH]; [done|]. cbn [blank trimEnd].
  intros [Hc Hrest]%andb_prop. rewrite IH by done. by rewrite is_space_white, Hc.
Qed.

Lemma trimEnd_tight (c : ascii) (s after : string) :
  bool_decide (last_char c s ∈ white_space) = false → blank after = true →
  trimEnd (String c s +:+ after) = String c s.
Proof.
  revert c. induction s as [|c' s IH]; intros c Hlast Hafter.
  - cbn [last_char] in Hlast. change (String c "" +:+ after) with (String c after).
    cbn [trimEnd]. rewrite trimEnd_blank by done. by rewrite is_space_white, Hlast.
  - cbn [last_char] in Hlast.
    change (String c (String c' s) +:+ after) with (String c (String c' s +:+ after)).
    cbn [trimEnd]. change (trimEnd (String c' (s +:+ after)))
      with (trimEnd (String c' s +:+ after)).
    by rewrite IH.
Qed.

Lemma trim_trims_to (raw core : string) : trims_to raw core → trim raw = core.
Proof.
  intros (before & after & -> & Hbefore & Hafter & Hcore). unfold trim.
  rewrite trimStart_blank by done. destruct core as [|c core].
  - change ("" +:+ after) with after.
    assert (trimStart after = "") as ->; [|done].
    clear -Hafter. induction after as [|c after IH]; [done|].
    cbn [blank] in Hafter. apply andb_prop in Hafter as [Hc Hrest].
    cbn [trimStart]. rewrite is_space_white, Hc. by apply IH.
  - cbn [tight] in Hcore. apply andb_prop in Hcore as [Hc Hlast].
    apply negb_true_iff in Hc, Hlast.
    change (String c core +:+ after) with (String c (core +:+ after)).
    rewrite trimStart_tight by done.
    by apply (trimEnd_tight c core after).
Qed.

Lemma process_param_text (params : gmap string string) (kv : string * option string)
    (param : string * string) :
  plain_param kv → stands_for kv param →
  process_param params (param_text kv) = assign params param.
Proof.
  intros Hplain [Hkey Hvalue]. rewrite process_param_split by done.
  rewrite (trim_trims_to _ _ Hkey), (trim_trims_to _ _ Hvalue). unfold assign.
  destruct (String.eqb_spec param.1 "__proto__") as [Heq|Hne].
  - by rewrite decide_True.
  - by rewrite decide_False.
Qed.

Lemma process_params_fold (kvs : list (string * option string))
    (ps : list (string * string)) (params : gmap string string) :
  Forall plain_param kvs → Forall2 stands_for kvs ps →
  fold_left process_param (param_text <$> kvs) params = fold_left assign ps params.
Proof.
  intros Hall Hps. revert params Hall.
  induction Hps as [|kv p kvs ps Hp Hps IH]; intros params Hall; [done|].
  inversion Hall as [|? ? Hkv Hrest]; subst. cbn [fmap list_fmap fold_left].
  rewrite (process_param_text _ _ p) by done. by apply IH.
Qed.

(** C7. The config of the [fmtp] entry of a payload type is read as
    parameters separated by [;], each a key and, after [=], a value, both
    without the white space around them; a parameter with no [=] gives its
    key the empty value.  So "apt=100" gives {apt: "100"}, "a;b=2" gives
    {a: "", b: "2"}, and a config with TAB and SP around its keys and values
    gives the keys and values without them.  One key is not kept: the
    parameters are gathered in a plain object, on which the assignment to
    [__proto__] stores nothing, so that "__proto__=1;a=2" gives {a: "2"}. *)
Theorem process_fmtp_params (type : Z) (item : string * option string)
    (items : list (string * option string)) (params : list (string * string)) :
  Forall plain_param (item :: items) →
  Forall2 stands_for (item :: items) params →
  process_fmtp type
    [{| fmtp_payload := type; fmtp_config := join ";" (param_text <$> item :: items) |}]
  = fold_left assign params ∅
  ∧ process_fmtp 101 [{| fmtp_payload := 101; fmtp_config := "apt=100" |}]
    = {["apt" := "100"]}
  ∧ process_fmtp 96 [{| fmtp_payload := 96; fmtp_config := "a;b=2" |}]
    = <["b" := "2"]> {["a" := ""]}
  ∧ process_fmtp 96
      [{| fmtp_payload := 96;
          fmtp_config := String "009" " a = 1 ; b " +:+ String "010" "" |}]
    = <["b" := ""]> {["a" := "1"]}
  ∧ process_fmtp 96 [{| fmtp_payload := 96; fmtp_config := "__proto__=1;a=2" |}]
    = {["a" := "2"]}.
Proof.
  intros Hall Hparams. split; [|split_and!; reflexivity].
  unfold process_fmtp. cbn [fold_left fmtp_payload fmtp_config].
  rewrite bool_decide_eq_true_2 by done.
  unfold process_config.
  change (param_text <$> item :: items)
    with (param_text item :: (param_text <$> items)).
  rewrite split_join.
  - by apply (process_params_fold (item :: items)).
  - change (param_text item :: (param_text <$> items))
      with (param_text <$> item :: items).
    apply Forall_fmap. eapply Forall_impl; [exact Hall|].
    intros kv Hkv. by apply param_text_no_semicolon.
Qed.

(** The payload types recorded by the loop over [md.rtp] are the keys of a
    Map: each occurs once. *)
Lemma process_rtp_apts_NoDup (md : MediaDescription) (fmts : list Rtp)
    (st : MediaInfo * Map number Z) :
  NoDup st.2.*1 → NoDup (fold_left (process_rtp md) fmts st).2.*1.
Proof.
  revert st. induction fmts as [|fmt fmts IH]; intros [mediaInfo apts] Hnd; [done|].
  cbn [fold_left]. apply IH. unfold process_rtp.
  destruct (String.eqb "RED" _ || String.eqb "ULPFEC" _); [done|].
  destruct (String.eqb "RTX" _); [|done].
  cbn [snd] in *. by apply Map_set_NoDup.
Qed.

(** An entry named RTX, in any case, leaves the codecs as they are. *)
Lemma process_rtp_RTX (md : MediaDescription) (st : MediaInfo * Map number Z) (fmt : Rtp) :
  toUpperCase (rtp_codec fmt) = "RTX" → (process_rtp md st fmt).1 = st.1.
Proof.
  intros Hrtx. destruct st as [mediaInfo apts]. unfold process_rtp. rewrite Hrtx.
  reflexivity.
Qed.

(** The loop over [apts]: a codec whose payload type is recorded gets the RTX
    payload type recorded for it, every other codec is left as it is, and no
    codec appears or disappears. *)
Lemma process_apts_codecs (apts : Map number Z) (mediaInfo : MediaInfo) (t : Z) :
  NoDup apts.*1 →
  Map_get t (codecs (fold_left process_apt apts mediaInfo)) =
    match Map_get t (codecs mediaInfo), Map_get (Num t) apts with
    | Some c, Some r => Some (Codec.setRTX c r)
    | Some c, None => Some c
    | None, _ => None
    end.
Proof.
  revert mediaInfo. induction apts as [|[a r] apts IH]; intros mediaInfo Hnd.
  - cbn [fold_left Map_get]. by destruct (Map_get t (codecs mediaInfo)).
  - apply NoDup_cons in Hnd as [Hfresh Hnd]. cbn [fmap list_fmap fst] in Hfresh.
    cbn [fold_left]. rewrite IH by done. cbn [Map_get].
    unfold process_apt. cbn [fst snd].
    destruct a as [t0|]; cbn [MediaInfo_getCodecForType].
    + destruct (Map_get t0 (codecs mediaInfo)) as [c0|] eqn:Hc0.
      * cbn [MediaInfo_with_codecs codecs].
        destruct (decide (Num t0 = Num t)) as [[= ->]|Hne].
        -- rewrite Map_get_set_eq, Hc0.
           by rewrite (proj2 (Map_get_None apts (Num t))).
        -- rewrite Map_get_set_ne by congruence. done.
      * destruct (decide (Num t0 = Num t)) as [[= ->]|Hne]; [|done].
        by rewrite Hc0.
    + rewrite decide_False by done. done.
Qed.

(** C4. An entry of [md.rtp] named RTX, in any case, creates no codec.  Once
    the loop over [md.rtp] is over, the codec stored under a payload type that
    an RTX entry points to ([apt]) has the payload type of that entry as its
    RTX, every other codec is unchanged, and an RTX entry whose [apt] is the
    payload type of no codec changes nothing.  With 100 VP9, 101 RTX and
    fmtp 101 apt=100, the RTX of VP9 is 101. *)
Theorem process_rtx (md : MediaDescription) (mediaInfo : MediaInfo) :
  (∀ st fmt, toUpperCase (rtp_codec fmt) = "RTX" → (process_rtp md st fmt).1 = st.1)
  ∧ (∀ t,
       let st := fold_left (process_rtp md) (md_rtp md) (mediaInfo, []) in
       Map_get t (codecs (process_codecs md mediaInfo)) =
         match Map_get t (codecs st.1), Map_get (Num t) st.2 with
         | Some c, Some r => Some (Codec.setRTX c r)
         | Some c, None => Some c
         | None, _ => None
         end)
  ∧ codecs (process_codecs
              (md_codecs "video" "v"
                 [{| rtp_payload := 100; rtp_codec := "VP9"; rtp_rate := Some 90000%Z;
                     rtp_encoding := None |};
                  {| rtp_payload := 101; rtp_codec := "RTX"; rtp_rate := Some 90000%Z;
                     rtp_encoding := None |}]
                 [{| fmtp_payload := 101; fmtp_config := "apt=100" |}])
              (MediaInfo_new "v" "video"))
    = [(100%Z, {| codec := "VP9"; type := 100; params := ∅; rtx := Some 101%Z |})]
  ∧ codecs (process_codecs
              (md_codecs "video" "v"
                 [{| rtp_payload := 100; rtp_codec := "VP9"; rtp_rate := Some 90000%Z;
                     rtp_encoding := None |};
                  {| rtp_payload := 101; rtp_codec := "rtx"; rtp_rate := Some 90000%Z;
                     rtp_encoding := None |}]
                 [{| fmtp_payload := 101; fmtp_config := "apt=102" |}])
              (MediaInfo_new "v" "video"))
    = [(100%Z, {| codec := "VP9"; type := 100; params := ∅; rtx := None |})].
Proof.
  split_and!.
  - intros st fmt. apply process_rtp_RTX.
  - intros t st. unfold process_codecs. fold st.
    pose proof (process_rtp_apts_NoDup md (md_rtp md) (mediaInfo, [])) as Hnd.
    fold st in Hnd. destruct st as [after apts]. cbn [fst snd] in *.
    apply process_apts_codecs. apply Hnd. constructor.
  - vm_compute. reflexivity.
  - vm_compute. reflexivity.
Qed.

(** ** The parser: sources and ssrc groups *)

(** One ssrc line changes the source of its own ssrc only. *)
Lemma process_ssrc_other (md : MediaDescription) (enc : list (list TrackEncodingInfo))
    (st st' : SDPInfo * Map Z SourceInfo) (a : Ssrc) (k : Z) :
  process_ssrc md enc st a = Returns st' → ssrc_id a ≠ k →
  Map_get k st'.2 = Map_get k st.2.
Proof.
  destruct st as [sdpInfo sources]. unfold process_ssrc. intros Hret Hne.
  assert (Hnew : ∀ source,
            Map_get k (Map_set (ssrc_id a) source sources) = Map_get k sources)
    by (intros; by apply Map_get_set_ne).
  destruct (Map_get (ssrc_id a) sources) as [source|] eqn:Hsrc.
  - destruct (String.eqb "cname" _).
    { injection Hret as <-. cbn [snd]. by apply Map_get_set_ne. }
    destruct (String.eqb "msid" _); [|by injection Hret as <-].
    destruct (ssrc_value a) as [v|]; [|done].
    injection Hret as <-. cbn [snd]. by apply Map_get_set_ne.
  - cbn [Source.getSSRC Source.new ssrc] in Hret.
    destruct (String.eqb "cname" _).
    { injection Hret as <-. cbn [snd]. rewrite Map_get_set_ne by done. apply Hnew. }
    destruct (String.eqb "msid" _); [|injection Hret as <-; apply Hnew].
    destruct (ssrc_value a) as [v|]; [|done].
    injection Hret as <-. cbn [snd]. rewrite Map_get_set_ne by done. apply Hnew.
Qed.

(** An ssrc line that is not an msid leaves an ssrc without stream as it is. *)
Lemma process_ssrc_unclaimed (md : MediaDescription) (enc : list (list TrackEncodingInfo))
    (st st' : SDPInfo * Map Z SourceInfo) (a : Ssrc) (k : Z) :
  process_ssrc md enc st a = Returns st' →
  (ssrc_id a = k → toLowerCase (ssrc_attribute a) ≠ "msid") →
  unclaimed k st.2 → unclaimed k st'.2.
Proof.
  intros Hret Hattr Hun. destruct (decide (ssrc_id a = k)) as [Heq|Hne].
  - specialize (Hattr Heq). subst k.
    destruct st as [sdpInfo sources]. unfold process_ssrc in Hret. cbn [snd] in *.
    assert (String.eqb "msid" (toLowerCase (ssrc_attribute a)) = false) as Hmsid.
    { apply String.eqb_neq. congruence. }
    rewrite Hmsid in Hret. unfold unclaimed in *.
    destruct (Map_get (ssrc_id a) sources) as [source|] eqn:Hsrc.
    + destruct (String.eqb "cname" _); injection Hret as <-; cbn [snd].
      * intros s. rewrite Map_get_set_eq. intros [= <-]. exact (Hun source eq_refl).
      * intros s. rewrite Hsrc. intros [= <-]. exact (Hun source eq_refl).
    + cbn [Source.getSSRC Source.new ssrc] in Hret.
      destruct (String.eqb "cname" _); injection Hret as <-; cbn [snd].
      * intros s. rewrite Map_get_set_eq. by intros [= <-].
      * intros s. rewrite Map_get_set_eq. by intros [= <-].
  - unfold unclaimed. by rewrite (process_ssrc_other md enc st st' a k).
Qed.

Lemma process_ssrcs_unclaimed (md : MediaDescription) (enc : list (list TrackEncodingInfo))
    (attrs : list Ssrc) (st st' : SDPInfo * Map Z SourceInfo) (k : Z) :
  for_each (process_ssrc md enc) attrs st = Returns st' →
  (∀ a, a ∈ attrs → ssrc_id a = k → toLowerCase (ssrc_attribute a) ≠ "msid") →
  unclaimed k st.2 → unclaimed k st'.2.
Proof.
  revert st. induction attrs as [|a attrs IH]; intros st Hret Hattrs Hun.
  - by injection Hret as <-.
  - cbn [for_each] in Hret.
    destruct (process_ssrc md enc st a) as [st1|e] eqn:Hstep; [|done].
    apply (IH st1); [done | |].
    + intros a' Hin. apply Hattrs. by right.
    + eapply process_ssrc_unclaimed; [done | | done]. apply Hattrs. left.
Qed.

Lemma process_ssrcs_absent (md : MediaDescription) (enc : list (list TrackEncodingInfo))
    (attrs : list Ssrc) (st st' : SDPInfo * Map Z SourceInfo) (k : Z) :
  for_each (process_ssrc md enc) attrs st = Returns st' →
  (∀ a, a ∈ attrs → ssrc_id a ≠ k) →
  Map_get k st'.2 = Map_get k st.2.
Proof.
  revert st. induction attrs as [|a attrs IH]; intros st Hret Hattrs.
  - by injection Hret as <-.
  - cbn [for_each] in Hret.
    destruct (process_ssrc md enc st a) as [st1|e] eqn:Hstep; [|done].
    rewrite (IH st1); [| done | intros a' Hin; apply Hattrs; by right].
    eapply process_ssrc_other; [done|]. apply Hattrs. left.
Qed.

(** The global msid claims sources that exist; it creates none. *)
Lemma process_unclaimed_absent (streamId : string) (trackId : option string)
    (entries : list (Z * SourceInfo)) (st : list Z * Map Z SourceInfo) (k : Z) :
  (∀ e, e ∈ entries → e.1 ≠ k) →
  Map_get k (fold_left (process_unclaimed streamId trackId) entries st).2 = Map_get k st.2.
Proof.
  revert st. induction entries as [|[ssrc source] entries IH]; intros st Hne; [done|].
  cbn [fold_left]. rewrite IH by (intros e Hin; apply Hne; by right).
  unfold process_unclaimed. destruct (truthy _); [done|]. cbn [snd].
  apply Map_get_set_ne. apply (Hne (ssrc, source)). left.
Qed.

Lemma process_msid_absent (md : MediaDescription) (enc : list (list TrackEncodingInfo))
    (st : SDPInfo * Map Z SourceInfo) (k : Z) :
  Map_get k st.2 = None → Map_get k (process_msid md enc st).2 = None.
Proof.
  destruct st as [sdpInfo sources]. cbn [snd]. intros Hnone. unfold process_msid.
  destruct (truthy (md_msid md)); [|done].
  pose proof (process_unclaimed_absent
                (default "" (split " " (to_string (md_msid md)) !! 0%nat))
                (split " " (to_string (md_msid md)) !! 1%nat)
                sources ([], sources) k) as Habs.
  destruct (fold_left _ sources ([], sources)) as [added sources'].
  cbn [snd] in *. rewrite Habs; [done|].
  intros [k' s'] Hin Heq. cbn [fst] in Heq. subst k'.
  apply Map_get_None in Hnone. apply Hnone.
  apply list_elem_of_fmap. by exists (k, s').
Qed.

(** A group whose first ssrc has no stream makes the lookup of its track
    throw. *)
Lemma process_ssrcGroup_throws (sources : Map Z SourceInfo) (sdpInfo : SDPInfo)
    (g : SsrcGroup) :
  (∀ n, first_ssrc g = Num n → unclaimed n sources) →
  throws (process_ssrcGroup sources sdpInfo g).
Proof.
  intros Hun. unfold process_ssrcGroup. fold (first_ssrc g).
  destruct (first_ssrc g) as [n|]; [|by eexists].
  specialize (Hun n eq_refl).
  destruct (Map_get n sources) as [source|] eqn:Hsrc; [|by eexists].
  cbn [deref mbind completion_bind]. rewrite (Hun source Hsrc). by eexists.
Qed.

Lemma process_msid_unclaimed (md : MediaDescription) (enc : list (list TrackEncodingInfo))
    (st : SDPInfo * Map Z SourceInfo) (k : Z) :
  (truthy (md_msid md) = true → Map_get k st.2 = None) →
  unclaimed k st.2 → unclaimed k (process_msid md enc st).2.
Proof.
  intros Hnone Hun. destruct (truthy (md_msid md)) eqn:Hmsid.
  - intros source. by rewrite process_msid_absent by auto.
  - destruct st as [sdpInfo sources]. unfold process_msid. by rewrite Hmsid.
Qed.

(** A media description with an ssrc-group whose first ssrc has no source
    with an msid makes the body of the loop over [sdp.media] throw. *)
Lemma process_media_throws (sdp : SDP) (sdpInfo : SDPInfo) (md : MediaDescription)
    (g : SsrcGroup) :
  g ∈ md_ssrcGroups md →
  (∀ n, first_ssrc g = Num n → no_msid_record md n) →
  throws (process_media sdp sdpInfo md).
Proof.
  intros Hg Hrec. unfold process_media.
  apply bind_throws_cont. intros fingerprintAttr.
  destruct (process_simulcast md _) as [mediaInfo enc].
  destruct (for_each (process_ssrc md enc) (md_ssrcs md) _) as [st|e] eqn:Hssrcs;
    [|by eexists].
  cbn [mbind completion_bind].
  destruct (process_msid md enc st) as [sdpInfo' sources] eqn:Hmsid.
  apply bind_throws. apply (for_each_throws _ _ g); [done|].
  intros s. apply process_ssrcGroup_throws. intros n Hn.
  destruct (Hrec n Hn) as [Hnomsid Hnoline].
  change sources with (sdpInfo', sources).2. rewrite <- Hmsid.
  apply process_msid_unclaimed.
  - intros Htruthy. rewrite (process_ssrcs_absent _ _ _ _ _ n Hssrcs); [done|].
    by apply Hnoline.
  - apply (process_ssrcs_unclaimed _ _ _ _ _ n Hssrcs); [done|]. by intros source.
Qed.


(** ** The serializer *)

(** The feedback entry that every codec gets. *)
Lemma toString_codec_rtcpFb (media : MediaInfo) (md : CodecLines) (codec : CodecInfo) :
  lines_rtcpFb (toString_codec media md codec) =
    lines_rtcpFb md ++ [{| fb_payload := Codec.getType codec; fb_type := "transport-cc";
                           fb_subtype := None |}].
Proof.
  unfold toString_codec, strict_eq_bool_string.
  destruct (String.eqb "video" (toLowerCase (MediaInfo_getType media))),
    (String.eqb "opus" (toLowerCase (Codec.getCodec codec))), (Codec.getRTX codec);
    reflexivity.
Qed.

Lemma toString_codecs_rtcpFb (media : MediaInfo) (cs : list CodecInfo) (md : CodecLines) :
  lines_rtcpFb (fold_left (toString_codec media) cs md) =
    lines_rtcpFb md ++
    ((λ codec, {| fb_payload := Codec.getType codec; fb_type := "transport-cc";
                  fb_subtype := None |}) <$> cs).
Proof.
  revert md. induction cs as [|c cs IH]; intros md; cbn [fold_left fmap list_fmap].
  - by rewrite app_nil_r.
  - rewrite IH, toString_codec_rtcpFb. by rewrite <- app_assoc.
Qed.

(** C2. The feedback entries that [toString] emits for a media line are one
    transport-cc entry per codec and nothing else: the guard of the nack/pli
    and goog-remb entries compares [!"flex-fec"], a boolean, with a string, and
    never holds.  A video line with VP8 under payload type 96 gets the single
    entry transport-cc. *)
Theorem toString_codecs_feedback (media : MediaInfo) :
  lines_rtcpFb (toString_codecs media) =
    ((λ codec, {| fb_payload := Codec.getType codec; fb_type := "transport-cc";
                  fb_subtype := None |}) <$> Map_values (MediaInfo_getCodecs media))
  ∧ (∀ fb, fb ∈ lines_rtcpFb (toString_codecs media) →
           fb_type fb ≠ "nack" ∧ fb_type fb ≠ "goog-remb")
  ∧ lines_rtcpFb
      (toString_codecs (MediaInfo_addCodec (MediaInfo_new "v" "video") (Codec.new "VP8" 96 ∅)))
    = [{| fb_payload := 96; fb_type := "transport-cc"; fb_subtype := None |}].
Proof.
  assert (Hall : lines_rtcpFb (toString_codecs media) =
            ((λ codec, {| fb_payload := Codec.getType codec; fb_type := "transport-cc";
                          fb_subtype := None |}) <$> Map_values (MediaInfo_getCodecs media))).
  { unfold toString_codecs. by rewrite toString_codecs_rtcpFb. }
  split_and!; [done | | reflexivity].
  intros fb. rewrite Hall. intros (codec & -> & _)%list_elem_of_fmap. by split.
Qed.

(** The media description of a media line carries exactly those entries. *)
Lemma toString_media_rtcpFb (self : SDPInfo) (media : MediaInfo) (md : MediaDescription) :
  toString_media self media = Returns md →
  md_rtcpFb md = lines_rtcpFb (toString_codecs media).
Proof.
  unfold toString_media. destruct (getICE self); [|done]. destruct (getDTLS self); [|done].
  by intros [= <-].
Qed.

(** Whether a media description is the one a track attaches to. *)
Lemma toString_track_no_match (stream : StreamInfo) (track : TrackInfo)
    (media : list MediaDescription) :
  (if truthy (Track.getMediaId track)
   then ∀ md, md ∈ media → Track.getMediaId track ≠ Some (md_mid md)
   else ∀ md, md ∈ media →
          toLowerCase (md_type md) ≠ toLowerCase (Track.getMedia track)) →
  toString_track stream track media = media.
Proof.
  induction media as [|md rest IH]; [done|]. cbn [toString_track].
  destruct (truthy (Track.getMediaId track)); intros Hno.
  - rewrite bool_decide_eq_false_2 by (apply Hno; left).
    rewrite IH; [done|]. intros md' Hin. apply Hno. by right.
  - rewrite (proj2 (String.eqb_neq _ _)) by (apply Hno; left).
    rewrite IH; [done|]. intros md' Hin. apply Hno. by right.
Qed.

(** C3 (as the code has it). A track attaches to one media description at
    most, the first that matches it: for a track with a media id, the first
    whose mid is that id, which gets the ssrc-groups of the track, a cname per
    ssrc and the msid of the track; for a track without media id, the first
    whose type is the media type of the track (in lower case), which gets the
    ssrc-groups, and a cname and an msid per ssrc.  The media descriptions
    before and after it are unchanged, and with no match none changes. *)
Theorem toString_track_first_match (stream : StreamInfo) (track : TrackInfo)
    (before : list MediaDescription) (md : MediaDescription)
    (after : list MediaDescription) :
  (truthy (Track.getMediaId track) = true →
   (∀ md', md' ∈ before → Track.getMediaId track ≠ Some (md_mid md')) →
   Track.getMediaId track = Some (md_mid md) →
   toString_track stream track (before ++ md :: after)
   = before ++ attach_unified stream track md :: after)
  ∧ (truthy (Track.getMediaId track) = false →
     (∀ md', md' ∈ before →
        toLowerCase (md_type md') ≠ toLowerCase (Track.getMedia track)) →
     toLowerCase (md_type md) = toLowerCase (Track.getMedia track) →
     toString_track stream track (before ++ md :: after)
     = before ++ attach_planB stream track md :: after)
  ∧ ((if truthy (Track.getMediaId track)
      then ∀ md', md' ∈ before → Track.getMediaId track ≠ Some (md_mid md')
      else ∀ md', md' ∈ before →
             toLowerCase (md_type md') ≠ toLowerCase (Track.getMedia track)) →
     toString_track stream track before = before)
  ∧ (md_ssrcGroups (attach_unified stream track md)
       = md_ssrcGroups md ++ (toString_group <$> Track.getSourceGroups track)
     ∧ md_ssrcs (attach_unified stream track md)
       = md_ssrcs md ++ (toString_cname stream <$> Track.getSSRCs track)
     ∧ md_msid (attach_unified stream track md)
       = Some (Stream.getId stream +:+ " " +:+ to_string (Track.getId track)))
  ∧ (md_ssrcGroups (attach_planB stream track md)
       = md_ssrcGroups md ++ (toString_group <$> Track.getSourceGroups track)
     ∧ md_ssrcs (attach_planB stream track md)
       = md_ssrcs md ++
         flat_map (λ ssrc,
             [{| ssrc_id := ssrc; ssrc_attribute := "cname";
                 ssrc_value := Some (Stream.getId stream) |};
              {| ssrc_id := ssrc; ssrc_attribute := "msid";
                 ssrc_value := Some (Stream.getId stream +:+ " "
                                       +:+ to_string (Track.getId track)) |}])
           (Track.getSSRCs track)
     ∧ md_msid (attach_planB stream track md) = md_msid md).
Proof.
  split_and!; try reflexivity.
  - intros Htruthy Hbefore Hmd.
    induction before as [|md0 before IH]; cbn [app toString_track]; rewrite Htruthy.
    + by rewrite bool_decide_eq_true_2.
    + rewrite bool_decide_eq_false_2 by (apply Hbefore; left).
      rewrite IH; [done|]. intros md' Hin. apply Hbefore. by right.
  - intros Htruthy Hbefore Hmd.
    induction before as [|md0 before IH]; cbn [app toString_track]; rewrite Htruthy.
    + by rewrite (proj2 (String.eqb_eq _ _)).
    + rewrite (proj2 (String.eqb_neq _ _)) by (apply Hbefore; left).
      rewrite IH; [done|]. intros md' Hin. apply Hbefore. by right.
  - apply toString_track_no_match.
Qed.

(** [toString] throws on every session, at that call, before it looks at a
    media line. *)
Lemma toString_throws (now : Z) (G : SDPInfo) : toString now G = Throws (isLite_error G).
Proof.
  unfold toString, toString_sdp, isLite_error. by destruct (getICE G).
Qed.

(** C8 (as the code has it). Two invocations of [toString] on the same session
    do behave alike, whatever the clock reads, but neither produces a text:
    each throws, at the call [this.getICE().isLite()], the same TypeError,
    which depends on the session alone. *)
Theorem toString_no_text (now now' : Z) (self : SDPInfo) :
  toString now self = toString now' self ∧
  toString now self = Throws (isLite_error self) ∧
  ∀ text, toString now self ≠ Returns text.
Proof.
  rewrite !toString_throws. split_and!; [done..|]. intros text Htext. discriminate Htext.
Qed.

(** C1 (as the code has it). [SDPInfo.process(G.toString())] gives no
    SDPInfo, whatever the session, its ice, its dtls and its media lines:
    [toString] throws before [process] is called, and the round trip throws
    with it; on a session with an ice the error is that [isLite] is not a
    function. *)
Theorem roundtrip_throws (now : Z) (G : SDPInfo) :
  roundtrip now G = Throws (isLite_error G) ∧
  (∀ G', roundtrip now G ≠ Returns G') ∧
  (is_Some (getICE G) → roundtrip now G = Throws (TypeError "isLite is not a function")).
Proof.
  assert (roundtrip now G = Throws (isLite_error G)) as Hthrows.
  { unfold roundtrip. by rewrite toString_throws. }
  split_and!; [done| |].
  - intros G' HG'. rewrite Hthrows in HG'. discriminate HG'.
  - intros [i Hi]. rewrite Hthrows. unfold isLite_error. by rewrite Hi.
Qed.

End Properties.

(** * The round trip *)

Section RoundTrip.
Context {enums : Enumerations}.

(** ** Loops and Maps, continued *)



Lemma Map_set_fresh {K V} `{EqDecision K} (m : Map K V) (k : K) (v : V) :
  k ∉ m.*1 → Map_set k v m = m ++ [(k, v)].
Proof.
  induction m as [|[k0 v0] m IH]; csimpl; [done|].
  intros [Hne Hnin]%not_elem_of_cons. rewrite decide_False by done. by rewrite IH.
Qed.


(** ** The pass over the tracks, line by line *)



Lemma toString_streams_step (streams : list StreamInfo) (media : list MediaDescription) :
  toString_streams streams media = fold_left step (all_tracks streams) media.
Proof.
  unfold toString_streams, all_tracks. revert media.
  induction streams as [|stream streams IH]; intros media; [done|].
  cbn [fold_left flat_map]. rewrite fold_left_app, <- IH. f_equal.
  generalize (Map_values (Stream.getTracks stream)). intros ts. revert media.
  induction ts as [|t ts IHt]; intros media; [done|]. cbn [fold_left fmap list_fmap].
  apply IHt.
Qed.

Lemma step_nil (L : list (StreamInfo * TrackInfo)) : fold_left step L [] = [].
Proof. induction L as [|st L IH]; [done|]. apply IH. Qed.



Lemma Map_get_Some_elem {K V} `{EqDecision K} (m : Map K V) (k : K) (v : V) :
  Map_get k m = Some v → (k, v) ∈ m.
Proof.
  induction m as [|[k0 v0] m IH]; csimpl; [done|].
  destruct (decide (k0 = k)) as [->|Hne].
  - intros [= ->]. left.
  - intros Hget. right. by apply IH.
Qed.





(** ** Tracks of a session under updates *)





(** ** The ssrc lines of a track, read back *)










(** ** Numbers written and read back *)

Lemma dec_digit_pretty (d : N) :
  (d < 10)%N → dec_digit (pretty_N_char d) = Some (Z.of_N d).
Proof.
  intros Hd.
  assert (d = 0 ∨ d = 1 ∨ d = 2 ∨ d = 3 ∨ d = 4 ∨ d = 5 ∨ d = 6 ∨ d = 7 ∨ d = 8 ∨ d = 9)%N
    as Hcases by lia.
  repeat (destruct Hcases as [->|Hcases]; [reflexivity|]). by subst.
Qed.

Lemma pretty_N_char_plain (d : N) :
  is_space (pretty_N_char d) = false ∧ pretty_N_char d ≠ "-"%char ∧
  pretty_N_char d ≠ "+"%char ∧ pretty_N_char d ≠ "x"%char ∧ pretty_N_char d ≠ "X"%char ∧
  pretty_N_char d ≠ " "%char.
Proof. unfold pretty_N_char. by repeat case_match. Qed.

(** The digits of a positive number, read after any accumulated value. *)
Lemma read_digits_pretty (x : N) :
  (0 < x)%N →
  ∃ p : Z, ∀ (s : string) (acc : option Z),
    read_digits dec_digit 10 (pretty_N_go x s) acc
    = read_digits dec_digit 10 s (Some (p * default 0%Z acc + Z.of_N x)%Z).
Proof.
  induction (N.lt_wf_0 x) as [x _ IH]. intros Hx.
  assert (x `mod` 10 < 10)%N as Hmod by (apply N.mod_lt; lia).
  destruct (decide (x `div` 10 = 0)%N) as [Hdiv|Hdiv].
  - exists 10%Z. intros s acc. rewrite pretty_N_go_step by done.
    rewrite Hdiv, pretty_N_go_0. cbn [read_digits]. rewrite dec_digit_pretty by done.
    do 2 f_equal.
    pose proof (N.div_mod x 10 ltac:(lia)) as E. apply (f_equal Z.of_N) in E.
    rewrite N2Z.inj_add, N2Z.inj_mul, Hdiv in E.
    change (Z.of_N 10) with 10%Z in E. change (Z.of_N 0) with 0%Z in E.
    generalize dependent (default 0%Z acc). intros; lia.
  - destruct (IH (x `div` 10)%N) as [p Hp];
      [apply N.div_lt; lia | by apply N.neq_0_lt_0 |].
    exists (10 * p)%Z. intros s acc. rewrite pretty_N_go_step by done.
    rewrite Hp. cbn [read_digits]. rewrite dec_digit_pretty by done.
    do 2 f_equal.
    pose proof (N.div_mod x 10 ltac:(lia)) as E. apply (f_equal Z.of_N) in E.
    rewrite N2Z.inj_add, N2Z.inj_mul in E. change (Z.of_N 10) with 10%Z in E.
    change (default 0%Z (Some ?a)) with a.
    generalize dependent (default 0%Z acc). intros; lia.
Qed.

(** A positive number is written as a digit followed by digits. *)
Lemma pretty_N_go_shape (x : N) (s : string) :
  (0 < x)%N →
  (s = "" ∨ ∃ d s', s = String (pretty_N_char d) s') →
  ∃ d s', pretty_N_go x s = String (pretty_N_char d) s' ∧
          (s' = "" ∨ ∃ d' s'', s' = String (pretty_N_char d') s'').
Proof.
  revert s. induction (N.lt_wf_0 x) as [x _ IH]. intros s Hx Hs.
  rewrite pretty_N_go_step by done.
  destruct (decide (x `div` 10 = 0)%N) as [Hdiv|Hdiv].
  - rewrite Hdiv, pretty_N_go_0. eauto.
  - apply IH; [apply N.div_lt; lia | by apply N.neq_0_lt_0 | eauto].
Qed.


(** [parseInt] on a string that begins with neither white space, nor a
    sign, nor a [0x] prefix. *)
Lemma parseInt_unsigned (c : ascii) (s' : string) :
  is_space c = false → c ≠ "-"%char → c ≠ "+"%char →
  (∀ r, s' ≠ String "x" r) → (∀ r, s' ≠ String "X" r) →
  parseInt (String c s') =
    match read_digits dec_digit 10 (String c s') None with
    | Some v => Num v
    | None => NaN
    end.
Proof.
  intros Hsp Hminus Hplus Hx HX. unfold parseInt. cbn [trimStart]. rewrite Hsp.
  destruct c as [[] [] [] [] [] [] [] []]; try reflexivity; try done.
  destruct s' as [|[[] [] [] [] [] [] [] []] r]; try reflexivity;
    exfalso; first [by apply (HX r) | by apply (Hx r)].
Qed.

Lemma parseInt_pretty (z : Z) : (0 ≤ z)%Z → parseInt (pretty z) = Num z.
Proof.
  intros Hz. destruct z as [|x|x]; [reflexivity | | lia].
  change (pretty (Z.pos x)) with (pretty_N_go (N.pos x) "").
  destruct (pretty_N_go_shape (N.pos x) "") as (d & s' & Hshape & Hs'); [lia | by left |].
  destruct (read_digits_pretty (N.pos x)) as [p Hp]; [lia|].
  pose proof (Hp "" None) as Hread. cbn [read_digits default] in Hread.
  rewrite Hshape in Hread. rewrite Hshape.
  destruct (pretty_N_char_plain d) as (Hsp & Hminus & Hplus & _).
  rewrite parseInt_unsigned; [| done | done | done | |].
  - rewrite Hread. f_equal. lia.
  - intros r ->. destruct Hs' as [?|(d' & s'' & [= Hd' _])]; [done|].
    by destruct (pretty_N_char_plain d') as (_ & _ & _ & Hx & _).
  - intros r ->. destruct Hs' as [?|(d' & s'' & [= Hd' _])]; [done|].
    by destruct (pretty_N_char_plain d') as (_ & _ & _ & _ & HX & _).
Qed.



(** ** The msid of a media description, read back *)







(** ** The ssrc-groups of a media description, read back *)






(** ** What the loops of a media description leave alone *)

Lemma for_each_preserves {A S B} (f : S → B) (body : S → A → completion S)
    (xs : list A) (s s' : S) :
  (∀ s a s', body s a = Returns s' → f s' = f s) →
  for_each body xs s = Returns s' → f s' = f s.
Proof.
  intros Hbody. revert s. induction xs as [|x xs IH]; intros s; cbn [for_each].
  - by intros [= ->].
  - destruct (body s x) as [s1|e] eqn:Hx; [|done]. cbn [mbind completion_bind].
    intros Hrun. rewrite (IH s1 Hrun). by apply (Hbody s x).
Qed.



(** ** The codecs of a media description, read back *)





Lemma process_apt_same (mi : MediaInfo) (apt : number * Z) :
  same_media (process_apt mi apt) mi.
Proof.
  unfold process_apt, MediaInfo_getCodecForType. destruct apt as [[t|] r]; cbn [fst snd].
  - destruct (Map_get t (codecs mi)) as [c|] eqn:Hget; [|done].
    unfold same_media, MediaInfo_with_codecs. cbn [m_id m_type codecs].
    split_and!; [done | done |]. apply Map_set_keys_old.
    destruct (decide (t ∈ (codecs mi).*1)) as [|Hnin]; [done|].
    apply Map_get_None in Hnin. congruence.
  - done.
Qed.

Lemma same_media_trans (a b c : MediaInfo) : same_media a b → same_media b c → same_media a c.
Proof. intros (? & ? & ?) (? & ? & ?). unfold same_media. split_and!; congruence. Qed.

Lemma process_apts_same (apts : Map number Z) (mi : MediaInfo) :
  same_media (fold_left process_apt apts mi) mi.
Proof.
  revert mi. induction apts as [|apt apts IH]; intros mi; [done|]. cbn [fold_left].
  eapply same_media_trans; [apply IH | apply process_apt_same].
Qed.


(** ** Sublists of a list of tracks *)









(** ** One media description, read back *)

Context {transform : SDPTransform}.

Lemma process_exts_same (exts : list Ext) (mi : MediaInfo) :
  same_media (fold_left process_ext exts mi) mi.
Proof.
  revert mi. induction exts as [|e exts IH]; intros mi; [done|]. cbn [fold_left].
  eapply same_media_trans; [apply IH | done].
Qed.

Lemma process_rids_same (rs : list Rid) (mi : MediaInfo) :
  same_media (fold_left process_rid rs mi) mi.
Proof.
  revert mi. induction rs as [|r rs IH]; intros mi; [done|]. cbn [fold_left].
  eapply same_media_trans; [apply IH | done].
Qed.

Lemma process_simulcast_same (md : MediaDescription) (mi : MediaInfo) :
  same_media (process_simulcast md mi).1 mi.
Proof. unfold process_simulcast. by destruct (md_simulcast md). Qed.


(** ** The media descriptions of a session, read back *)



(** ** What [toString] builds for a session *)



(** ** The tracks of a session as the add methods build it *)







(** ** The round trip *)



End RoundTrip.


(** * The stream and the session object, method by method *)

Section Streams.

(** X1. [getFirstTrack] never returns a track: its two exits read
    [this.track] and [this.null], properties that no StreamInfo has, so the
    result is [undefined] whether or not the stream holds a track of the
    media type asked for. *)
Theorem getFirstTrack_undefined (self : StreamInfo) (media : string) :
  Stream.getFirstTrack self media = Undefined.
Proof.
  unfold Stream.getFirstTrack. generalize (Map_values (tracks self)). intros ts.
  induction ts as [|track ts IH]; [done|]. cbn [Stream.getFirstTrack_loop].
  by destruct (String.eqb _ _).
Qed.

(** X2. [addTrack] then [getTrack]: the track is found under its own id, a
    track of that id that the stream held before is replaced where it stood,
    a new id goes last, and every other id reads as before. *)
Theorem addTrack_getTrack (self : StreamInfo) (track : TrackInfo) :
  (∀ id, Stream.getTrack (Stream.addTrack self track) id =
         if decide (Track.getId track = id) then Some track else Stream.getTrack self id) ∧
  (Stream.getTracks (Stream.addTrack self track)).*1 =
    (if decide (Track.getId track ∈ (Stream.getTracks self).*1)
     then (Stream.getTracks self).*1
     else (Stream.getTracks self).*1 ++ [Track.getId track]) ∧
  Stream.getId (Stream.addTrack self track) = Stream.getId self.
Proof.
  unfold Stream.getTrack, Stream.addTrack, Stream.getTracks. cbn [tracks]. split_and!.
  - intros id. case_decide as Hid.
    + subst id. apply Map_get_set_eq.
    + by apply Map_get_set_ne.
  - case_decide.
    + by apply Map_set_keys_old.
    + by apply Map_set_keys_new.
  - done.
Qed.

End Streams.

Section SessionObject.
Context {enums : Enumerations} {collab : Collaborators} {transform : SDPTransform}.

(** X3. [getMedia(type)] hands back the first media line, in the order they
    were added, whose type equals [type] compared in lower case, and [null]
    exactly when there is none; it is never [undefined]. *)
Theorem getMedia_first (self : SDPInfo) (type : string) :
  match getMedia self type with
  | Object media =>
      ∃ before after,
        getMedias self = before ++ media :: after ∧
        toLowerCase (MediaInfo_getType media) = toLowerCase type ∧
        Forall (λ m, toLowerCase (MediaInfo_getType m) ≠ toLowerCase type) before
  | Null => Forall (λ m, toLowerCase (MediaInfo_getType m) ≠ toLowerCase type) (getMedias self)
  | Undefined => False
  end.
Proof.
  unfold getMedia, getMedias. induction (medias self) as [|m ms IH]; [constructor|].
  cbn [getMedia_loop]. destruct (String.eqb_spec (toLowerCase (MediaInfo_getType m))
                                   (toLowerCase type)) as [Heq|Hne].
  - exists [], ms. split_and!; [done | done | constructor].
  - destruct (getMedia_loop type ms) as [| |media].
    + done.
    + by constructor.
    + destruct IH as (before & after & -> & Hty & Hbefore).
      exists (m :: before), after. split_and!; [done | done | by constructor].
Qed.

(** X4. [addCandidates] appends the candidates in the order given and
    touches nothing else; adding two lists one after the other is adding
    their concatenation. *)
Theorem addCandidates_appends (self : SDPInfo) (cs cs' : list CandidateInfo) :
  getCandidates (addCandidates self cs) = getCandidates self ++ cs ∧
  getMedias (addCandidates self cs) = getMedias self ∧
  getStreams (addCandidates self cs) = getStreams self ∧
  getICE (addCandidates self cs) = getICE self ∧
  getDTLS (addCandidates self cs) = getDTLS self ∧
  getVersion (addCandidates self cs) = getVersion self ∧
  addCandidates (addCandidates self cs) cs' = addCandidates self (cs ++ cs').
Proof.
  rewrite !addCandidates_candidates. cbn. split_and!; try done.
  by rewrite app_assoc.
Qed.

(** X5. [addStream], [removeStream] and [getStream]: a stream added is found
    under its id, a stream removed is no longer found, and neither changes
    what is found under another id. *)
Theorem stream_lookup (self : SDPInfo) (stream : StreamInfo) (id : string) :
  getStream (addStream self stream) id =
    (if decide (Stream.getId stream = id) then Some stream else getStream self id) ∧
  getStream (removeStream self stream) id =
    (if decide (Stream.getId stream = id) then None else getStream self id).
Proof.
  unfold getStream, addStream, removeStream, with_streams. cbn [streams]. split.
  - case_decide as Hid.
    + subst id. apply Map_get_set_eq.
    + by apply Map_get_set_ne.
  - induction (streams self) as [|[k s] ss IH]; [by case_decide|].
    cbn [filter list_filter fst Map_get].
    destruct (decide (k ≠ Stream.getId stream)) as [Hk|Hk%dec_stable].
    + cbn [Map_get]. destruct (decide (k = id)) as [->|Hne]; [|exact IH].
      by rewrite decide_False by done.
    + subst k. etrans; [exact IH|]. cbn [Map_get].
      by destruct (decide (Stream.getId stream = id)).
Qed.

(** X6. Removing a stream just added to a session that held none of its id
    gives the session back. *)
Theorem removeStream_addStream (self : SDPInfo) (stream : StreamInfo) :
  getStream self (Stream.getId stream) = None →
  removeStream (addStream self stream) stream = self.
Proof.
  unfold getStream, addStream, removeStream, with_streams. cbn [streams]. intros Hnone.
  destruct self as [v ss ms cs i d]. cbn [streams version medias candidates ice dtls] in *.
  f_equal. induction ss as [|[k s] ss IH]; cbn [Map_set Map_get] in *.
  - cbn [filter list_filter fst]. by rewrite decide_False by (by intros ?).
  - destruct (decide (k = Stream.getId stream)) as [->|Hne]; [done|].
    cbn [filter list_filter fst]. rewrite decide_True by done. f_equal. by apply IH.
Qed.

(** X7. [getFirstStream] is [null] exactly on a session without stream;
    after [addStream] it is the first stream added, unless the stream added
    has the id of that one, which it then replaces. *)
Theorem getFirstStream_addStream (self : SDPInfo) (stream : StreamInfo) :
  (getFirstStream self = Null ↔ getStreams self = []) ∧
  getFirstStream (addStream self stream) =
    match getStreams self with
    | [] => Object stream
    | (id, first) :: _ => Object (if decide (id = Stream.getId stream) then stream else first)
    end.
Proof.
  unfold getFirstStream, addStream, getStreams, with_streams, Map_values. cbn [streams].
  destruct (streams self) as [|[id first] ss]; cbn [fmap list_fmap Map_set].
  - done.
  - split; [done|]. by destruct (decide (id = Stream.getId stream)).
Qed.

(** X8. What [answer] returns, whatever the parameters: the two guards are
    crossed, so the answer has the ice of the parameters only if they give a
    dtls, and their dtls only if they give an ice; it has their candidates,
    version 1, no stream, and as many media lines as the offer. *)
Theorem answer_shape (offer : SDPInfo) (p : AnswerParams) (a : SDPInfo) :
  answer offer (Some p) = Returns a →
  getICE a = (match params_dtls p with Some _ => params_ice p | None => None end) ∧
  getDTLS a = (match params_ice p with Some _ => params_dtls p | None => None end) ∧
  getCandidates a = default [] (params_candidates p) ∧
  getVersion a = 1%Z ∧ getStreams a = [] ∧
  length (getMedias a) = length (getMedias offer).
Proof.
  unfold getICE, getDTLS, getCandidates, getVersion, getStreams, getMedias.
  unfold answer. cbn [deref mbind completion_bind].
  match goal with
  | |- for_each ?body _ ?init = _ → _ =>
      assert (Hloop : ∀ ms acc a,
                for_each body ms acc = Returns a →
                ice a = ice acc ∧ dtls a = dtls acc ∧ candidates a = candidates acc ∧
                version a = version acc ∧ streams a = streams acc ∧
                length (medias a) = (length (medias acc) + length ms)%nat);
      [|intros Hrun; destruct (Hloop _ _ _ Hrun) as (-> & -> & -> & -> & -> & ->)]
  end.
  { clear. induction ms as [|m ms IH]; intros acc a; cbn [for_each].
    - intros [= <-]. split_and!; try done; cbn; lia.
    - destruct (params_capabilities p) as [caps|]; [|done].
      cbn [deref mbind completion_bind].
      destruct (MediaInfo_answer m _) as [m'|]; [|done]. cbn [mbind completion_bind].
      intros Hrun. destruct (IH _ _ Hrun) as (-> & -> & -> & -> & -> & ->).
      cbn. rewrite length_app. cbn. split_and!; try done; lia. }
  destruct (params_ice p), (params_dtls p), (params_candidates p) as [cs|];
    rewrite ?addCandidates_candidates; cbn; done.
Qed.

(** X9. When [answer] throws and when it cannot: with no parameters it
    throws, reading [params.ice]; with parameters that lack the capabilities
    it throws as soon as the offer has a media line, reading
    [params.capabilities[..]]; and on an offer without media line it returns
    whatever the parameters are. *)
Theorem answer_throws (offer : SDPInfo) :
  throws (answer offer None) ∧
  (∀ p, params_capabilities p = None → getMedias offer ≠ [] →
        throws (answer offer (Some p))) ∧
  (∀ p, getMedias offer = [] → ∃ a, answer offer (Some p) = Returns a).
Proof.
  unfold getMedias. split_and!.
  - by eexists.
  - intros p Hcaps Hms. unfold answer. cbn [deref mbind completion_bind].
    apply for_each_nonempty_throws; [done|]. intros acc m. rewrite Hcaps. by eexists.
  - intros p Hms. unfold answer. rewrite Hms. by eexists.
Qed.

(** X10. [plain()] returns exactly on the sessions that have no stream and
    no ice, the [plain()] of the media lines, of the candidates and of the
    dtls returning: the object it then builds has the version of the session,
    no stream, a [null] ice, one entry per media line and per candidate, and
    a dtls when the session has one. *)
Theorem plain_returns (self : SDPInfo) :
  Forall (λ m, ∃ p, MediaInfo_plain m = Returns p) (getMedias self) →
  Forall (λ c, ∃ p, CandidateInfo_plain c = Returns p) (getCandidates self) →
  (∀ d, getDTLS self = Some d → ∃ p, DTLSInfo_plain d = Returns p) →
  (getStreams self = [] ∧ getICE self = None →
   ∃ o, plain self = Returns o ∧
        plain_version o = getVersion self ∧ plain_streams o = [] ∧ plain_ice o = None ∧
        length (plain_medias o) = length (getMedias self) ∧
        length (plain_candidates o) = length (getCandidates self) ∧
        (is_Some (plain_dtls o) ↔ is_Some (getDTLS self))) ∧
  (∀ o, plain self = Returns o → getStreams self = [] ∧ getICE self = None).
Proof.
  unfold getMedias, getCandidates, getDTLS, getStreams, getICE, getVersion.
  intros Hms Hcs Hd.
  assert (Hloop : ∀ {A} (f : A → completion PlainObject) (xs : list A) acc,
            Forall (λ x, ∃ p, f x = Returns p) xs →
            ∃ ps, for_each (λ acc x, p ← f x; Returns (acc ++ [p])) xs acc
                  = Returns (acc ++ ps) ∧ length ps = length xs).
  { clear. intros A f xs. induction xs as [|x xs IH]; intros acc Hall.
    - exists []. by rewrite app_nil_r.
    - apply Forall_cons in Hall as [[p Hp] Hall]. cbn [for_each]. rewrite Hp.
      cbn [mbind completion_bind]. destruct (IH (acc ++ [p]) Hall) as (ps & Hrun & Hlen).
      exists (p :: ps). rewrite Hrun, <- app_assoc. cbn. by rewrite Hlen. }
  destruct (Hloop _ MediaInfo_plain (medias self) [] Hms) as (ms & Hrun_ms & Hlen_ms).
  destruct (Hloop _ CandidateInfo_plain (candidates self) [] Hcs) as (cs & Hrun_cs & Hlen_cs).
  split.
  - intros [Hss Hice]. unfold plain. rewrite Hrun_ms, Hss, Hrun_cs, Hice.
    cbn [mbind completion_bind Map_values fmap list_fmap for_each and_plain app].
    destruct (dtls self) as [d|] eqn:Hdtls.
    + destruct (Hd d eq_refl) as [pd Hpd]. cbn [and_plain]. rewrite Hpd.
      cbn [mbind completion_bind]. eexists. split; [reflexivity|].
      cbn. split_and!; try done; split; intros _; by eexists.
    + cbn [and_plain mbind completion_bind]. eexists. split; [reflexivity|].
      cbn. split_and!; try done; split; intros [? [=]].
  - intros o. unfold plain. rewrite Hrun_ms. cbn [mbind completion_bind].
    destruct (streams self) as [|[k s] ss]; [|done].
    cbn [Map_values fmap list_fmap for_each mbind completion_bind]. rewrite Hrun_cs.
    cbn [mbind completion_bind]. destruct (ice self) as [i|]; [done|]. done.
Qed.

End SessionObject.

(** * The serializer, part by part *)

Section Serializer.
Context {enums : Enumerations}.

Lemma media_level_md_attach (md : MediaDescription) (g : list SsrcGroup) (s : list Ssrc)
    (m : option string) :
  media_level (md_attach md g s m) = media_level md.
Proof. reflexivity. Qed.

Lemma toString_track_media_level (stream : StreamInfo) (track : TrackInfo)
    (media : list MediaDescription) :
  media_level <$> toString_track stream track media = media_level <$> media.
Proof.
  induction media as [|md media IH]; [done|]. cbn [toString_track].
  destruct (truthy (Track.getMediaId track)).
  - case_bool_decide; cbn [fmap list_fmap]; [done|]. f_equal. exact IH.
  - destruct (String.eqb _ _); cbn [fmap list_fmap]; [done|]. f_equal. exact IH.
Qed.

(** X11. The pass of [toString] over the streams and their tracks writes
    ssrc-groups, ssrc attributes and msids, and nothing else: it leaves the
    number and the order of the media descriptions and every other field of
    each of them as they were. *)
Theorem toString_streams_media_level (streams : list StreamInfo)
    (media : list MediaDescription) :
  media_level <$> toString_streams streams media = media_level <$> media.
Proof.
  rewrite toString_streams_step. revert media.
  induction (all_tracks streams) as [|st L IH]; intros media; [done|].
  cbn [fold_left]. rewrite IH. unfold step. apply toString_track_media_level.
Qed.

Lemma toString_media_media_level (self : SDPInfo) (m : MediaInfo) (md : MediaDescription) :
  toString_media self m = Returns md → media_level md = md.
Proof.
  unfold toString_media. destruct (getICE self) as [i|]; [|done].
  destruct (getDTLS self) as [d|]; [|done]. by intros [= <-].
Qed.

Lemma toString_medias_run (self : SDPInfo) (ms : list MediaInfo)
    (acc : list MediaDescription) :
  match for_each (λ media m, md ← toString_media self m; Returns (media ++ [md])) ms acc with
  | Returns media =>
      ∃ lines, media = acc ++ lines ∧
               Forall2 (λ m md, toString_media self m = Returns md) ms lines
  | Throws _ => ∃ m, m ∈ ms ∧ throws (toString_media self m)
  end.
Proof.
  revert acc. induction ms as [|m ms IH]; intros acc; cbn [for_each].
  - exists []. split; [by rewrite app_nil_r | constructor].
  - destruct (toString_media self m) as [md|e] eqn:Hm; cbn [mbind completion_bind].
    + specialize (IH (acc ++ [md])). destruct (for_each _ ms (acc ++ [md])) as [media|e].
      * destruct IH as (lines & -> & Hlines). exists (md :: lines).
        split; [by rewrite <- app_assoc | by constructor].
      * destruct IH as (m' & Hin & Hthrows). exists m'. split; [by right | done].
    + exists m. split; [left | rewrite Hm; by eexists].
Qed.

(** What a run of [toString] that builds a tree went through. *)
Lemma toString_sdp_inv (now : Z) (isLite : ICEInfo → completion bool) (self : SDPInfo)
    (tree : SDP) :
  toString_sdp now isLite self = Returns tree →
  ∃ this_ice is_lite media,
    getICE self = Some this_ice ∧ isLite this_ice = Returns is_lite ∧
    for_each (λ media m, md ← toString_media self m; Returns (media ++ [md]))
      (medias self) [] = Returns media ∧
    sdp_media tree = toString_streams (Map_values (streams self)) media ∧
    sdp_groups tree =
      [{| group_type := "BUNDLE"; mids := join " " (MediaInfo_getId <$> medias self) |}] ∧
    sdp_version tree = 0%Z ∧
    sessionVersion <$> sdp_origin tree = Some (version self) ∧
    sessionId <$> sdp_origin tree = Some now.
Proof.
  unfold toString_sdp. destruct (getICE self) as [this_ice|]; [|done].
  cbn [deref mbind completion_bind].
  destruct (isLite this_ice) as [is_lite|] eqn:Hlite; [|done].
  destruct (for_each _ (medias self) []) as [media|e]; cbn [mbind completion_bind]; [|done].
  intros [= <-]. by exists this_ice, is_lite, media.
Qed.

(** X12. [toString] builds its attribute tree exactly when the session has
    an ice on which the member [isLite] returns, and either no media line or
    a dtls: it reads [this.getICE()] for that call, before any media line,
    and [this.getDTLS()] once per media line and nowhere else. *)
Theorem toString_sdp_returns (now : Z) (isLite : ICEInfo → completion bool)
    (self : SDPInfo) :
  (∃ tree, toString_sdp now isLite self = Returns tree) ↔
  (∃ this_ice is_lite, getICE self = Some this_ice ∧ isLite this_ice = Returns is_lite) ∧
  (getMedias self = [] ∨ is_Some (getDTLS self)).
Proof.
  unfold getMedias, toString_sdp. pose proof (toString_medias_run self (medias self) []) as Hrun.
  destruct (getICE self) as [this_ice|] eqn:Hice; cbn [deref mbind completion_bind].
  2: { split; [by intros [? [=]] | by intros [(? & ? & [=] & _) _]]. }
  destruct (isLite this_ice) as [is_lite|e] eqn:Hlite.
  2: { split; [by intros [? [=]]|]. intros [(? & ? & [= <-] & Hreturns) _]. congruence. }
  destruct (for_each _ (medias self) []) as [media|e]; cbn [mbind completion_bind].
  - split; [intros _ | by eexists].
    split; [by exists this_ice, is_lite|].
    destruct Hrun as (lines & _ & Hlines).
    destruct Hlines as [|m md ms lines Hm _]; [by left | right].
    unfold toString_media in Hm. rewrite Hice in Hm.
    destruct (getDTLS self); [|done]. by eexists.
  - split; [by intros [? [=]]|]. destruct Hrun as (m & Hin & [e' Hthrows]).
    intros [_ [Hnil|[d Hd]]].
    + rewrite Hnil in Hin. by apply elem_of_nil in Hin.
    + unfold toString_media in Hthrows. by rewrite Hice, Hd in Hthrows.
Qed.

(** X29. The tree that [toString] builds depends on the reading of the
    clock, which it stores as the session id of its origin, and on nothing
    else around it: when it builds a tree at one reading, it builds at any
    other reading the same tree but for that session id. *)
Theorem toString_sdp_clock (now now' : Z) (isLite : ICEInfo → completion bool)
    (self : SDPInfo) (sdp : SDP) :
  toString_sdp now isLite self = Returns sdp →
  sessionId <$> sdp_origin sdp = Some now
  ∧ toString_sdp now' isLite self = Returns (with_sessionId now' sdp).
Proof.
  unfold toString_sdp. destruct (getICE self) as [this_ice|]; [|done].
  cbn [deref mbind completion_bind]. destruct (isLite this_ice) as [is_lite|]; [|done].
  destruct (for_each _ (medias self) []) as [media|e]; [|done].
  cbn [mbind completion_bind]. by intros [= <-].
Qed.

(** The media descriptions of the tree, without what the pass over the
    tracks writes, are what the loop over the media lines built. *)
Lemma toString_sdp_media (now : Z) (isLite : ICEInfo → completion bool) (self : SDPInfo)
    (tree : SDP) :
  toString_sdp now isLite self = Returns tree →
  Forall2 (λ m md, toString_media self m = Returns (media_level md))
    (medias self) (sdp_media tree).
Proof.
  intros (_ & _ & media & _ & _ & Hfor & -> & _)%toString_sdp_inv.
  pose proof (toString_medias_run self (medias self) []) as Hrun. rewrite Hfor in Hrun.
  clear Hfor. destruct Hrun as (lines & -> & Hlines). cbn [app].
  pose proof (toString_streams_media_level (Map_values (streams self)) lines) as Hlevel.
  apply list_eq_Forall2 in Hlevel.
  apply (proj1 (Forall2_fmap media_level media_level eq _ _)) in Hlevel.
  revert Hlevel. generalize (toString_streams (Map_values (streams self)) lines).
  induction Hlines as [|m md ms lines Hm _ IH]; intros media Hlevel.
  - inversion Hlevel. constructor.
  - inversion Hlevel as [|md' ? media' ? Hmd Hrest]; subst. constructor; [|by apply IH].
    by rewrite Hmd, (toString_media_media_level self m md).
Qed.

(** X13. The tree that [toString] builds has one media description per
    media line, in order, each with the type and the mid of its media line,
    port 9, the ice credentials and the fingerprint of the session and every
    candidate of the session; its BUNDLE group lists the mids of its media
    descriptions in that order; its version is 0 and the version of the
    session is the session version of its origin. *)
Theorem toString_sdp_lines (now : Z) (isLite : ICEInfo → completion bool)
    (self : SDPInfo) (tree : SDP) :
  toString_sdp now isLite self = Returns tree →
  Forall2 (λ m md,
      md_type md = MediaInfo_getType m ∧ md_mid md = MediaInfo_getId m ∧ md_port md = 9%Z ∧
      md_candidates md = toString_candidate <$> getCandidates self ∧
      md_iceUfrag md = (getICE self ≫= ICE.getUfrag) ∧
      md_icePwd md = (getICE self ≫= ICE.getPwd) ∧
      md_fingerprint md =
        ((λ d, {| fp_type := hash d; fp_hash := fingerprint d |}) <$> getDTLS self))
    (getMedias self) (sdp_media tree) ∧
  sdp_groups tree =
    [{| group_type := "BUNDLE"; mids := join " " (md_mid <$> sdp_media tree) |}] ∧
  sdp_version tree = 0%Z ∧
  sessionVersion <$> sdp_origin tree = Some (getVersion self).
Proof.
  intros Htree. pose proof (toString_sdp_media now isLite self tree Htree) as Hpair.
  unfold getMedias. split_and!.
  - eapply Forall2_impl; [exact Hpair|]. intros m md Hm. cbn beta in Hm.
    unfold toString_media in Hm. destruct (getICE self) as [i|]; [|done].
    destruct (getDTLS self) as [d|]; [|done]. cbn in Hm.
    destruct md. unfold media_level in Hm. cbn in Hm |- *. by simplify_eq.
  - assert (md_mid <$> sdp_media tree = MediaInfo_getId <$> medias self) as ->.
    { induction Hpair as [|m md ms media Hm _ IH]; [done|].
      cbn [fmap list_fmap]. rewrite IH. f_equal.
      unfold toString_media in Hm. destruct (getICE self) as [i|]; [|done].
      destruct (getDTLS self) as [d|]; [|done]. cbn in Hm.
      destruct md. unfold media_level in Hm. cbn in Hm |- *. by simplify_eq. }
    by apply toString_sdp_inv in Htree as (_ & _ & _ & _ & _ & _ & _ & Hgroups & _).
  - by apply toString_sdp_inv in Htree as (_ & _ & _ & _ & _ & _ & _ & _ & Hversion & _).
  - by apply toString_sdp_inv in Htree as (_ & _ & _ & _ & _ & _ & _ & _ & _ & Hsession & _).
Qed.


(** ** Payload lists, stream lists and rid parameters *)

Lemma toString_codec_shape (m : MediaInfo) (L : CodecLines) (c : CodecInfo) :
  ∃ main fbs,
    rtp_payload main = Codec.getType c ∧ rtp_codec main = Codec.getCodec c ∧
    Forall (λ fb, fb_payload fb = Codec.getType c) fbs ∧
    toString_codec m L c =
      match Codec.getRTX c with
      | Some rtx =>
          {| lines_rtp := lines_rtp L ++
               [main; {| rtp_payload := rtx; rtp_codec := "rtx"; rtp_rate := Some 90000%Z;
                         rtp_encoding := None |}];
             lines_rtcpFb := lines_rtcpFb L ++ fbs;
             lines_fmtp := lines_fmtp L ++
               [{| fmtp_payload := rtx;
                   fmtp_config := "apt=" +:+ pretty (Codec.getType c) |}] |}
      | None =>
          {| lines_rtp := lines_rtp L ++ [main]; lines_rtcpFb := lines_rtcpFb L ++ fbs;
             lines_fmtp := lines_fmtp L |}
      end.
Proof.
  unfold toString_codec.
  destruct (String.eqb "video" _);
    [destruct (strict_eq_bool_string _ _) | destruct (String.eqb "opus" _)];
    destruct (Codec.getRTX c) as [rtx|];
    unfold push_rtp, push_rtcpFb, push_fmtp; cbn [lines_rtp lines_fmtp lines_rtcpFb];
    rewrite <- ?app_assoc; cbn [app];
    eexists _, _; (split; [|split; [|split; [|reflexivity]]]); try done;
    by repeat constructor.
Qed.

Lemma toString_codec_lines (m : MediaInfo) (L : CodecLines) (c : CodecInfo) :
  Forall (λ f, ∃ r, r ∈ lines_rtp L ∧ rtp_payload r = fmtp_payload f ∧ rtp_codec r = "rtx")
    (lines_fmtp L) →
  Forall (λ fb, ∃ r, r ∈ lines_rtp L ∧ rtp_payload r = fb_payload fb) (lines_rtcpFb L) →
  Forall (λ f, ∃ r, r ∈ lines_rtp (toString_codec m L c) ∧
                    rtp_payload r = fmtp_payload f ∧ rtp_codec r = "rtx")
    (lines_fmtp (toString_codec m L c)) ∧
  Forall (λ fb, ∃ r, r ∈ lines_rtp (toString_codec m L c) ∧ rtp_payload r = fb_payload fb)
    (lines_rtcpFb (toString_codec m L c)).
Proof.
  intros Hf Hfb. destruct (toString_codec_shape m L c) as (main & fbs & Hmain & _ & Hfbs & ->).
  assert (∀ extra,
            Forall (λ f, ∃ r, r ∈ lines_rtp L ++ extra ∧ rtp_payload r = fmtp_payload f ∧
                              rtp_codec r = "rtx") (lines_fmtp L)) as Hf'.
  { intros extra. eapply Forall_impl; [exact Hf|]. intros f (r & Hr & ?). exists r.
    split; [|done]. apply elem_of_app. by left. }
  assert (∀ extra,
            Forall (λ fb, ∃ r, r ∈ lines_rtp L ++ main :: extra ∧
                               rtp_payload r = fb_payload fb) (lines_rtcpFb L ++ fbs)) as Hfb'.
  { intros extra. apply Forall_app. split.
    - eapply Forall_impl; [exact Hfb|]. intros fb (r & Hr & ?). exists r.
      split; [|done]. apply elem_of_app. by left.
    - eapply Forall_impl; [exact Hfbs|]. intros fb Hpayload. exists main.
      split; [|congruence]. apply elem_of_app. right. left. }
  destruct (Codec.getRTX c) as [rtx|]; cbn [lines_rtp lines_fmtp lines_rtcpFb].
  - split; [|apply Hfb']. apply Forall_app. split; [apply Hf'|].
    constructor; [|constructor].
    exists {| rtp_payload := rtx; rtp_codec := "rtx"; rtp_rate := Some 90000%Z;
              rtp_encoding := None |}.
    split; [|done]. apply elem_of_app. right. right. left.
  - split; [apply Hf' | apply Hfb'].
Qed.

Lemma toString_codecs_lines (m : MediaInfo) :
  Forall (λ f, ∃ r, r ∈ lines_rtp (toString_codecs m) ∧ rtp_payload r = fmtp_payload f ∧
                    rtp_codec r = "rtx") (lines_fmtp (toString_codecs m)) ∧
  Forall (λ fb, ∃ r, r ∈ lines_rtp (toString_codecs m) ∧ rtp_payload r = fb_payload fb)
    (lines_rtcpFb (toString_codecs m)).
Proof.
  unfold toString_codecs. generalize (Map_values (MediaInfo_getCodecs m)). intros cs.
  assert (∀ L,
    Forall (λ f, ∃ r, r ∈ lines_rtp L ∧ rtp_payload r = fmtp_payload f ∧ rtp_codec r = "rtx")
      (lines_fmtp L) →
    Forall (λ fb, ∃ r, r ∈ lines_rtp L ∧ rtp_payload r = fb_payload fb) (lines_rtcpFb L) →
    Forall (λ f, ∃ r, r ∈ lines_rtp (fold_left (toString_codec m) cs L) ∧
                      rtp_payload r = fmtp_payload f ∧ rtp_codec r = "rtx")
      (lines_fmtp (fold_left (toString_codec m) cs L)) ∧
    Forall (λ fb, ∃ r, r ∈ lines_rtp (fold_left (toString_codec m) cs L) ∧
                       rtp_payload r = fb_payload fb)
      (lines_rtcpFb (fold_left (toString_codec m) cs L))) as Hall.
  { induction cs as [|c cs IH]; intros L Hf Hfb; [done|]. cbn [fold_left].
    destruct (toString_codec_lines m L c Hf Hfb) as [Hf' Hfb']. by apply IH. }
  apply Hall; constructor.
Qed.

(** X14. In every media description of the tree that [toString] builds, the
    payload list is the payload types of the rtpmap entries, in order, joined
    by spaces; every fmtp entry is about the payload type of an rtpmap entry
    named rtx; and every rtcp-fb entry is about the payload type of an rtpmap
    entry. *)
Theorem toString_sdp_payloads (now : Z) (isLite : ICEInfo → completion bool)
    (self : SDPInfo) (tree : SDP) :
  toString_sdp now isLite self = Returns tree →
  Forall (λ md,
      md_payloads md = join " " ((λ r, pretty (rtp_payload r)) <$> md_rtp md) ∧
      Forall (λ f, ∃ r, r ∈ md_rtp md ∧ rtp_payload r = fmtp_payload f ∧ rtp_codec r = "rtx")
        (md_fmtp md) ∧
      Forall (λ fb, ∃ r, r ∈ md_rtp md ∧ rtp_payload r = fb_payload fb) (md_rtcpFb md))
    (sdp_media tree).
Proof.
  intros Htree. pose proof (toString_sdp_media now isLite self tree Htree) as Hpair.
  induction Hpair as [|m md ms media Hm _ IH]; constructor; [|exact IH].
  unfold toString_media in Hm. destruct (getICE self) as [i|]; [|done].
  destruct (getDTLS self) as [d|]; [|done]. cbn [deref mbind completion_bind] in Hm.
  destruct (toString_codecs_lines m) as [Hf Hfb].
  destruct md. unfold media_level in Hm. cbn in Hm |- *. by simplify_eq.
Qed.

Lemma append_assoc (a b c : string) : (a +:+ b) +:+ c = a +:+ b +:+ c.
Proof.
  induction a as [|x a IH]; [done|].
  change (String x ((a +:+ b) +:+ c) = String x (a +:+ b +:+ c)). by rewrite IH.
Qed.

Lemma append_nonempty_r (a b : string) : b ≠ "" → a +:+ b ≠ "".
Proof. intros Hb. destruct a; [done|]. discriminate. Qed.

(** A text built by [text += (text.length ? sep : "") + item] is the items
    joined by [sep], as long as no item is empty. *)
Lemma fold_join {A} (sep : string) (f : A → string) (xs : list A) (acc : string) :
  acc ≠ "" → Forall (λ x, f x ≠ "") xs →
  fold_left (λ text x, text +:+ (if truthy_string text then sep else "") +:+ f x) xs acc
  = join sep (acc :: (f <$> xs)).
Proof.
  revert acc. induction xs as [|x xs IH]; intros acc Hacc Hall; [done|].
  apply Forall_cons in Hall as [Hx Hall]. cbn [fold_left].
  rewrite IH; [| by apply append_nonempty_r, append_nonempty_r | done].
  destruct acc as [|c acc]; [done|]. cbn [truthy_string fmap list_fmap].
  destruct xs as [|y xs]; [done|]. cbn [fmap list_fmap join].
  by rewrite !append_assoc.
Qed.

Lemma fold_join_empty {A} (sep : string) (f : A → string) (xs : list A) :
  Forall (λ x, f x ≠ "") xs →
  fold_left (λ text x, text +:+ (if truthy_string text then sep else "") +:+ f x) xs ""
  = join sep (f <$> xs).
Proof.
  destruct xs as [|x xs]; [done|]. intros [Hx Hall]%Forall_cons. cbn [fold_left].
  by apply fold_join.
Qed.

Lemma alternative_text_nonempty (s : SimulcastStreamInfo) :
  sid s ≠ "" → alternative_text s ≠ "".
Proof. intros Hs. by apply append_nonempty_r. Qed.

(** X15. The stream list of a simulcast direction is its sets of
    alternatives joined by semicolons, each set being its stream ids, a
    paused one after a tilde, joined by commas, as long as no set is empty
    and no stream id is empty (an empty item would go without its
    separator). *)
Theorem toString_streamlist_join (sets : list (list SimulcastStreamInfo)) :
  Forall (λ set, set ≠ [] ∧ Forall (λ s, sid s ≠ "") set) sets →
  toString_streamlist sets
  = join ";" ((λ set, join "," (alternative_text <$> set)) <$> sets).
Proof.
  intros Hsets.
  assert (∀ set, Forall (λ s, sid s ≠ "") set →
            toString_alternatives set = join "," (alternative_text <$> set)) as Halt.
  { intros set Hset. unfold toString_alternatives.
    rewrite <- (fold_join_empty "," alternative_text)
      by (eapply Forall_impl; [exact Hset|]; apply alternative_text_nonempty).
    done. }
  unfold toString_streamlist.
  rewrite (fold_join_empty ";" toString_alternatives).
  - f_equal. apply Forall_fmap_ext_1. eapply Forall_impl; [exact Hsets|].
    intros set [_ Hset]. by apply Halt.
  - eapply Forall_impl; [exact Hsets|]. intros set [Hne Hset]. rewrite Halt by done.
    destruct set as [|s set]; [done|]. apply Forall_cons in Hset as [Hs _].
    cbn [fmap list_fmap]. destruct (alternative_text <$> set) eqn:Hrest; cbn [join].
    + by apply alternative_text_nonempty.
    + intros Heq. apply (alternative_text_nonempty s Hs).
      by destruct (alternative_text s).
Qed.

(** X16. The parameters of a rid attribute are the formats, when there are
    any, as [pt=] and the payload types joined by commas, then every
    parameter as [key=value], all joined by semicolons. *)
Theorem toString_rid_params (ridInfo : RIDInfo) :
  rid_params (toString_rid ridInfo)
  = Some (join ";"
            (match RID.getFormats ridInfo with
             | [] => []
             | fs => ["pt=" +:+ join "," (number_to_string <$> fs)]
             end ++ (rid_param_text <$> RID.getParams ridInfo))).
Proof.
  unfold toString_rid. cbn [rid_params]. f_equal.
  assert (Forall (λ kv, rid_param_text kv ≠ "") (RID.getParams ridInfo)) as Hall.
  { apply Forall_forall. intros kv _. unfold rid_param_text.
    by apply append_nonempty_r. }
  destruct (RID.getFormats ridInfo) as [|f fs].
  - cbn [app]. by rewrite <- (fold_join_empty ";" rid_param_text).
  - cbn [app]. by rewrite <- (fold_join ";" rid_param_text).
Qed.

End Serializer.

(** * The parser, part by part *)

Section Parser.
Context {enums : Enumerations} {transform : SDPTransform}.

(** ** What the loops over ssrcs and ssrc-groups leave alone *)

Lemma process_ssrc_session (md : MediaDescription) (enc : list (list TrackEncodingInfo))
    (st st' : SDPInfo * Map Z SourceInfo) (a : Ssrc) :
  process_ssrc md enc st a = Returns st' →
  (version st'.1, medias st'.1, candidates st'.1, ice st'.1, dtls st'.1)
  = (version st.1, medias st.1, candidates st.1, ice st.1, dtls st.1).
Proof.
  destruct st as [info S]. unfold process_ssrc.
  destruct (Map_get (ssrc_id a) S) as [source|].
  - destruct (String.eqb "cname" _); [by intros [= <-]|].
    destruct (String.eqb "msid" _); [|by intros [= <-]].
    destruct (ssrc_value a) as [v|]; [|done]. by intros [= <-].
  - destruct (String.eqb "cname" _); [by intros [= <-]|].
    destruct (String.eqb "msid" _); [|by intros [= <-]].
    destruct (ssrc_value a) as [v|]; [|done]. by intros [= <-].
Qed.

Lemma process_msid_session (md : MediaDescription) (enc : list (list TrackEncodingInfo))
    (st : SDPInfo * Map Z SourceInfo) :
  (version (process_msid md enc st).1, medias (process_msid md enc st).1,
   candidates (process_msid md enc st).1, ice (process_msid md enc st).1,
   dtls (process_msid md enc st).1)
  = (version st.1, medias st.1, candidates st.1, ice st.1, dtls st.1).
Proof.
  destruct st as [info S]. unfold process_msid. destruct (truthy (md_msid md)); [|done].
  by destruct (fold_left _ S ([], S)).
Qed.

Lemma process_ssrcGroup_session (sources : Map Z SourceInfo) (info info' : SDPInfo)
    (g : SsrcGroup) :
  process_ssrcGroup sources info g = Returns info' →
  (version info', medias info', candidates info', ice info', dtls info')
  = (version info, medias info, candidates info, ice info, dtls info).
Proof.
  unfold process_ssrcGroup.
  destruct (deref _ _) as [source|]; [|done]. cbn [mbind completion_bind].
  destruct (deref _ _) as [stream|]; [|done]. cbn [mbind completion_bind].
  destruct (deref _ _) as [track|]; [|done]. cbn [mbind completion_bind].
  by intros [= <-].
Qed.

(** ** The media line of a media description *)

Lemma process_rtps_id (md : MediaDescription) (rs : list Rtp)
    (st : MediaInfo * Map number Z) :
  m_id (fold_left (process_rtp md) rs st).1 = m_id st.1 ∧
  m_type (fold_left (process_rtp md) rs st).1 = m_type st.1.
Proof.
  revert st. induction rs as [|r rs IH]; intros [mi apts]; [done|]. cbn [fold_left].
  destruct (IH (process_rtp md (mi, apts) r)) as [-> ->]. unfold process_rtp.
  destruct (_ || _); [done|]. by destruct (String.eqb "RTX" _).
Qed.

Lemma process_codecs_id (md : MediaDescription) (mi : MediaInfo) :
  m_id (process_codecs md mi) = m_id mi ∧ m_type (process_codecs md mi) = m_type mi.
Proof.
  unfold process_codecs. pose proof (process_rtps_id md (md_rtp md) (mi, [])) as Hrtp.
  destruct (fold_left (process_rtp md) (md_rtp md) (mi, [])) as [mi' apts].
  destruct (process_apts_same apts mi') as (-> & -> & _). exact Hrtp.
Qed.

(** What one turn of the loop over [sdp.media] returns, when it returns. *)
Lemma process_media_returns (sdp : SDP) (info info' : SDPInfo) (md : MediaDescription) :
  process_media sdp info md = Returns info' →
  ∃ f mi,
    (md_fingerprint md = Some f ∨ (md_fingerprint md = None ∧ sdp_fingerprint sdp = Some f)) ∧
    version info' = version info ∧ candidates info' = candidates info ∧
    medias info' = medias info ++ [mi] ∧
    m_id mi = md_mid md ∧ m_type mi = md_type md ∧
    ice info' = Some (ICE.new (md_iceUfrag md) (md_icePwd md)) ∧
    dtls info' =
      Some {| setup := if truthy (md_setup md) then Setup_byValue (to_string (md_setup md))
                       else Setup_ACTPASS;
              hash := fp_type f; fingerprint := fp_hash f |}.
Proof.
  unfold process_media.
  match goal with
  | |- (deref _ ?o ≫= _) = _ → _ =>
      assert (∀ f, o = Some f →
                md_fingerprint md = Some f ∨
                (md_fingerprint md = None ∧ sdp_fingerprint sdp = Some f)) as Hfp;
      [|destruct o as [f|]; [specialize (Hfp f eq_refl)|done]]
  end.
  { intros f. destruct (md_fingerprint md); intros [= <-]; [by left | by right]. }
  cbn [deref mbind completion_bind].
  match goal with
  | |- context [process_simulcast md ?x] =>
      pose proof (process_simulcast_same md x) as Hsim;
      pose proof (process_rids_same (md_rids md)
                    (fold_left process_ext (md_ext md)
                       (process_codecs md
                          (MediaInfo_setDirection (MediaInfo_new (md_mid md) (md_type md))
                             (if truthy (md_direction md)
                              then Direction_byValue (to_string (md_direction md))
                              else Direction_SENDRECV))))) as Hrid;
      pose proof (process_exts_same (md_ext md)
                    (process_codecs md
                       (MediaInfo_setDirection (MediaInfo_new (md_mid md) (md_type md))
                          (if truthy (md_direction md)
                           then Direction_byValue (to_string (md_direction md))
                           else Direction_SENDRECV)))) as Hext;
      pose proof (process_codecs_id md
                    (MediaInfo_setDirection (MediaInfo_new (md_mid md) (md_type md))
                       (if truthy (md_direction md)
                        then Direction_byValue (to_string (md_direction md))
                        else Direction_SENDRECV))) as Hcodecs;
      destruct (process_simulcast md x) as [mi enc]
  end.
  cbn [fst] in Hsim.
  destruct (for_each (process_ssrc md enc) _ _) as [st|] eqn:Hssrcs; [|done].
  cbn [mbind completion_bind].
  pose proof (for_each_preserves
                (λ st, (version st.1, medias st.1, candidates st.1, ice st.1, dtls st.1))
                _ _ _ _ (λ s a s', process_ssrc_session md enc s s' a) Hssrcs) as H1.
  pose proof (process_msid_session md enc st) as H2.
  destruct (process_msid md enc st) as [info2 sources]. cbn [fst] in H1, H2.
  destruct (for_each (process_ssrcGroup sources) _ _) as [info3|] eqn:Hgroups; [|done].
  cbn [mbind completion_bind].
  pose proof (for_each_preserves
                (λ i, (version i, medias i, candidates i, ice i, dtls i))
                _ _ _ _ (λ s g s', process_ssrcGroup_session sources s s' g) Hgroups) as H3.
  cbn beta in H3. intros [= <-]. exists f, mi.
  rewrite H2, H1 in H3. cbn in H3. injection H3 as Hv Hm Hc Hi Hd.
  unfold addMedia. cbn [version candidates medias ice dtls].
  destruct Hsim as (Hs1 & Hs2 & _), Hrid as (Hr1 & Hr2 & _), Hext as (He1 & He2 & _),
    Hcodecs as (Hc1 & Hc2).
  split_and!; [done | done | done | by rewrite Hm | | | done | done].
  - by rewrite Hs1, Hr1, He1, Hc1.
  - by rewrite Hs2, Hr2, He2, Hc2.
Qed.

Lemma process_medias_lines (sdp : SDP) (mds : list MediaDescription) (info G : SDPInfo) :
  for_each (process_media sdp) mds info = Returns G →
  version G = version info ∧
  m_id <$> medias G = (m_id <$> medias info) ++ (md_mid <$> mds) ∧
  m_type <$> medias G = (m_type <$> medias info) ++ (md_type <$> mds) ∧
  candidates G = candidates info.
Proof.
  revert info. induction mds as [|md mds IH]; intros info; cbn [for_each].
  - intros [= <-]. by rewrite !app_nil_r.
  - destruct (process_media sdp info md) as [info1|] eqn:Hmd; [|done].
    cbn [mbind completion_bind]. intros Hrest.
    destruct (process_media_returns _ _ _ _ Hmd)
      as (f & mi & _ & Hv & Hc & Hm & Hid & Hty & _).
    destruct (IH _ Hrest) as (-> & -> & -> & ->).
    rewrite Hv, Hc, Hm, !fmap_app. cbn [fmap list_fmap]. rewrite Hid, Hty.
    by rewrite <- !app_assoc.
Qed.

(** X17. The session that [process] returns has the version of the tree,
    one media line per media description, in order, with its mid and its
    type, and no candidate at all: the candidate lines of the media
    descriptions are not read. *)
Theorem process_sdp_lines (sdp : SDP) (G : SDPInfo) :
  process_sdp sdp = Returns G →
  getVersion G = sdp_version sdp ∧
  MediaInfo_getId <$> getMedias G = md_mid <$> sdp_media sdp ∧
  MediaInfo_getType <$> getMedias G = md_type <$> sdp_media sdp ∧
  getCandidates G = [].
Proof.
  unfold process_sdp, getVersion, getMedias, getCandidates, MediaInfo_getId,
    MediaInfo_getType.
  intros Hrun. destruct (process_medias_lines _ _ _ _ Hrun) as (Hv & Hi & Ht & Hc).
  split_and!; [exact Hv | exact Hi | exact Ht | exact Hc].
Qed.

Lemma process_medias_transport (sdp : SDP) (mds : list MediaDescription)
    (info G : SDPInfo) :
  for_each (process_media sdp) mds info = Returns G →
  match last mds with
  | None => ice G = ice info ∧ dtls G = dtls info
  | Some md =>
      ice G = Some (ICE.new (md_iceUfrag md) (md_icePwd md)) ∧
      ∃ f,
        (md_fingerprint md = Some f ∨
         (md_fingerprint md = None ∧ sdp_fingerprint sdp = Some f)) ∧
        dtls G =
          Some {| setup := if truthy (md_setup md)
                           then Setup_byValue (to_string (md_setup md)) else Setup_ACTPASS;
                  hash := fp_type f; fingerprint := fp_hash f |}
  end.
Proof.
  revert info. induction mds as [|md mds IH]; intros info; cbn [for_each].
  - by intros [= <-].
  - destruct (process_media sdp info md) as [info1|] eqn:Hmd; [|done].
    cbn [mbind completion_bind]. intros Hrest.
    destruct (process_media_returns _ _ _ _ Hmd)
      as (f & mi & Hf & _ & _ & _ & _ & _ & Hice & Hdtls).
    specialize (IH _ Hrest). destruct mds as [|md' mds].
    + cbn [last] in *. destruct IH as [-> ->]. split; [done|]. by exists f.
    + change (last (md :: md' :: mds)) with (last (md' :: mds)).
      destruct (last (md' :: mds)) eqn:Hlast; [exact IH|].
      by apply last_None in Hlast.
Qed.

(** X18. The ice and the dtls of the session that [process] returns are
    those of the last media description (its ufrag and pwd; its setup, or
    actpass without one; its fingerprint, or the one of the session level
    when it has none): every media description overwrites what the one
    before it set.  A tree without media description gives a session with
    neither. *)
Theorem process_sdp_transport (sdp : SDP) (G : SDPInfo) :
  process_sdp sdp = Returns G →
  match last (sdp_media sdp) with
  | None => getICE G = None ∧ getDTLS G = None
  | Some md =>
      getICE G = Some (ICE.new (md_iceUfrag md) (md_icePwd md)) ∧
      ∃ f,
        (md_fingerprint md = Some f ∨
         (md_fingerprint md = None ∧ sdp_fingerprint sdp = Some f)) ∧
        getDTLS G =
          Some {| setup := if truthy (md_setup md)
                           then Setup_byValue (to_string (md_setup md)) else Setup_ACTPASS;
                  hash := fp_type f; fingerprint := fp_hash f |}
  end.
Proof.
  unfold process_sdp, getICE, getDTLS. intros Hrun.
  exact (process_medias_transport _ _ _ _ Hrun).
Qed.

(** X19. A media description without fingerprint, in a tree without
    session-level fingerprint, makes [process] throw: it reads [type] of
    [md.fingerprint || sdp.fingerprint]. *)
Theorem process_sdp_no_fingerprint (sdp : SDP) (md : MediaDescription) :
  md ∈ sdp_media sdp → md_fingerprint md = None → sdp_fingerprint sdp = None →
  throws (process_sdp sdp).
Proof.
  intros Hmd Hnone Hsdp. unfold process_sdp. apply (for_each_throws _ _ md); [done|].
  intros info. unfold process_media. rewrite Hnone, Hsdp. by eexists.
Qed.

(** X20. An ssrc attribute named msid (in any case) that carries no value
    makes [process] throw: it calls [split] on the value. *)
Theorem process_sdp_msid_without_value (sdp : SDP) (md : MediaDescription) (a : Ssrc) :
  md ∈ sdp_media sdp → a ∈ md_ssrcs md →
  toLowerCase (ssrc_attribute a) = "msid" → ssrc_value a = None →
  throws (process_sdp sdp).
Proof.
  intros Hmd Ha Hattr Hvalue. unfold process_sdp. apply (for_each_throws _ _ md); [done|].
  intros info. unfold process_media. apply bind_throws_cont. intros f.
  destruct (process_simulcast md _) as [mi enc]. apply bind_throws.
  apply (for_each_throws _ _ a); [done|]. intros [info' S]. unfold process_ssrc.
  rewrite Hattr, Hvalue. cbn [String.eqb]. destruct (Map_get (ssrc_id a) S); by eexists.
Qed.


(** ** The codecs of a parsed media line *)

Lemma Forall_Map_set {K V} `{EqDecision K} (P : K * V → Prop) (m : Map K V) (k : K) (v : V) :
  Forall P m → P (k, v) → Forall P (Map_set k v m).
Proof.
  intros Hm Hkv. induction Hm as [|[k' v'] m Hkv' Hm IH]; cbn [Map_set].
  - by constructor.
  - case_decide; constructor; done.
Qed.

Lemma process_rtps_codecs (md : MediaDescription) (rs : list Rtp)
    (st : MediaInfo * Map number Z) :
  (∀ r, r ∈ rs → r ∈ md_rtp md) →
  media_ok st.1 →
  Forall (λ kv, ∃ r, r ∈ md_rtp md ∧ rtp_payload r = kv.1 ∧
                     rtp_codec r = Codec.getCodec kv.2) (codecs st.1) →
  media_ok (fold_left (process_rtp md) rs st).1 ∧
  Forall (λ kv, ∃ r, r ∈ md_rtp md ∧ rtp_payload r = kv.1 ∧
                     rtp_codec r = Codec.getCodec kv.2)
    (codecs (fold_left (process_rtp md) rs st).1).
Proof.
  revert st. induction rs as [|r rs IH]; intros [mi apts] Hrs Hok Hfrom; [done|].
  cbn [fold_left]. apply IH; [intros r' Hr'; apply Hrs; by right | |];
    unfold process_rtp; cbn [fst] in *;
    destruct (String.eqb_spec "RED" (toUpperCase (rtp_codec r))); cbn [orb]; try done;
    destruct (String.eqb_spec "ULPFEC" (toUpperCase (rtp_codec r))); try done;
    destruct (String.eqb_spec "RTX" (toUpperCase (rtp_codec r))); try done;
    cbn [fst MediaInfo_addCodec MediaInfo_with_codecs codecs Codec.getType Codec.new type].
  - destruct Hok as [Hnd Hall]. split; [by apply Map_set_NoDup|].
    apply Forall_Map_set; [done|]. unfold codec_ok. cbn. split_and!; congruence.
  - apply Forall_Map_set; [done|]. exists r. split_and!; [apply Hrs; left | done | done].
Qed.

Lemma process_apt_codecs (md : MediaDescription) (mi : MediaInfo) (apt : number * Z) :
  media_ok mi →
  Forall (λ kv, ∃ r, r ∈ md_rtp md ∧ rtp_payload r = kv.1 ∧
                     rtp_codec r = Codec.getCodec kv.2) (codecs mi) →
  media_ok (process_apt mi apt) ∧
  Forall (λ kv, ∃ r, r ∈ md_rtp md ∧ rtp_payload r = kv.1 ∧
                     rtp_codec r = Codec.getCodec kv.2) (codecs (process_apt mi apt)).
Proof.
  intros [Hnd Hall] Hfrom. unfold process_apt, MediaInfo_getCodecForType.
  destruct apt as [[t|] rtx]; cbn [fst snd]; [|done].
  destruct (Map_get t (codecs mi)) as [c|] eqn:Hget; [|done].
  apply Map_get_Some_elem in Hget.
  pose proof (proj1 (Forall_forall _ _) Hall _ Hget) as Hc.
  pose proof (proj1 (Forall_forall _ _) Hfrom _ Hget) as Hr.
  cbn [MediaInfo_with_codecs codecs]. split; [split|].
  - by apply Map_set_NoDup.
  - apply Forall_Map_set; [done|]. exact Hc.
  - apply Forall_Map_set; [done|]. exact Hr.
Qed.

Lemma process_codecs_codecs (md : MediaDescription) (mi : MediaInfo) :
  codecs mi = [] →
  media_ok (process_codecs md mi) ∧
  Forall (λ kv, ∃ r, r ∈ md_rtp md ∧ rtp_payload r = kv.1 ∧
                     rtp_codec r = Codec.getCodec kv.2) (codecs (process_codecs md mi)).
Proof.
  intros Hnil. unfold process_codecs.
  destruct (process_rtps_codecs md (md_rtp md) (mi, [])) as [Hok Hfrom].
  { done. }
  { unfold media_ok. cbn [fst]. rewrite Hnil. split; constructor. }
  { cbn [fst]. rewrite Hnil. constructor. }
  destruct (fold_left (process_rtp md) (md_rtp md) (mi, [])) as [mi' apts]. cbn [fst] in *.
  revert mi' Hok Hfrom. induction apts as [|apt apts IH]; intros mi' Hok Hfrom; [done|].
  cbn [fold_left]. destruct (process_apt_codecs md mi' apt Hok Hfrom). by apply IH.
Qed.

Lemma process_exts_codecs (exts : list Ext) (mi : MediaInfo) :
  codecs (fold_left process_ext exts mi) = codecs mi.
Proof.
  revert mi. induction exts as [|e exts IH]; intros mi; [done|]. cbn [fold_left].
  by rewrite IH.
Qed.

Lemma process_rids_codecs (rs : list Rid) (mi : MediaInfo) :
  codecs (fold_left process_rid rs mi) = codecs mi.
Proof.
  revert mi. induction rs as [|r rs IH]; intros mi; [done|]. cbn [fold_left].
  by rewrite IH.
Qed.

Lemma process_simulcast_codecs (md : MediaDescription) (mi : MediaInfo) :
  codecs (process_simulcast md mi).1 = codecs mi.
Proof. unfold process_simulcast. by destruct (md_simulcast md). Qed.

Lemma process_media_codecs (sdp : SDP) (info info' : SDPInfo) (md : MediaDescription) :
  process_media sdp info md = Returns info' →
  ∃ mi, medias info' = medias info ++ [mi] ∧ media_ok mi ∧
        Forall (λ kv, ∃ r, r ∈ md_rtp md ∧ rtp_payload r = kv.1 ∧
                           rtp_codec r = Codec.getCodec kv.2) (codecs mi).
Proof.
  intros Hrun. destruct (process_media_returns _ _ _ _ Hrun)
    as (f & mi & _ & _ & _ & Hm & _). exists mi. split; [done|].
  unfold process_media in Hrun.
  destruct (deref _ _) as [f'|]; [|done]. cbn [mbind completion_bind] in Hrun.
  match type of Hrun with
  | context [process_simulcast md ?x] =>
      pose proof (process_simulcast_codecs md x) as Hsim;
      destruct (process_simulcast md x) as [mi' enc]
  end.
  destruct (for_each (process_ssrc md enc) _ _) as [st|]; [|done].
  cbn [mbind completion_bind] in Hrun.
  destruct (process_msid md enc st) as [info2 sources].
  destruct (for_each (process_ssrcGroup sources) _ _) as [info3|] eqn:Hgroups; [|done].
  cbn [mbind completion_bind] in Hrun. injection Hrun as <-.
  unfold addMedia in Hm. cbn [medias] in Hm. apply app_inj_tail in Hm as [_ <-].
  cbn [fst] in Hsim. rewrite process_rids_codecs, process_exts_codecs in Hsim.
  unfold media_ok. rewrite Hsim. by apply process_codecs_codecs.
Qed.

(** X21. Every media line of the session that [process] returns holds its
    codecs under distinct payload types, each under its own; none is named
    RED, ULPFEC or RTX in any case; and each has the payload type and the
    name of an rtpmap entry of its media description. *)
Theorem process_sdp_codecs (sdp : SDP) (G : SDPInfo) :
  process_sdp sdp = Returns G →
  Forall2 (λ m md,
      media_ok m ∧
      Forall (λ kv, ∃ r, r ∈ md_rtp md ∧ rtp_payload r = kv.1 ∧
                         rtp_codec r = Codec.getCodec kv.2) (MediaInfo_getCodecs m))
    (getMedias G) (sdp_media sdp).
Proof.
  unfold process_sdp, getMedias, MediaInfo_getCodecs.
  assert (∀ mds info G,
            for_each (process_media sdp) mds info = Returns G →
            ∃ ms, medias G = medias info ++ ms ∧
                  Forall2 (λ m md,
                      media_ok m ∧
                      Forall (λ kv, ∃ r, r ∈ md_rtp md ∧ rtp_payload r = kv.1 ∧
                                         rtp_codec r = Codec.getCodec kv.2) (codecs m))
                    ms mds) as Hloop.
  { induction mds as [|md mds IH]; intros info G'; cbn [for_each].
    - intros [= <-]. exists []. split; [by rewrite app_nil_r | constructor].
    - destruct (process_media sdp info md) as [info1|] eqn:Hmd; [|done].
      cbn [mbind completion_bind]. intros Hrest.
      destruct (process_media_codecs _ _ _ _ Hmd) as (mi & Hm & Hok & Hfrom).
      destruct (IH _ _ Hrest) as (ms & -> & Hms). exists (mi :: ms).
      split; [by rewrite Hm, <- app_assoc | by constructor]. }
  intros Hrun. destruct (Hloop _ _ _ Hrun) as (ms & Hms & Hall).
  cbn in Hms. by rewrite Hms.
Qed.

(** ** Streams need an msid *)

Lemma process_ssrcs_streams (md : MediaDescription) (enc : list (list TrackEncodingInfo))
    (attrs : list Ssrc) (st st' : SDPInfo * Map Z SourceInfo) :
  Forall (λ a, toLowerCase (ssrc_attribute a) ≠ "msid") attrs →
  for_each (process_ssrc md enc) attrs st = Returns st' →
  streams st'.1 = streams st.1.
Proof.
  intros Hattrs. revert st. induction Hattrs as [|a attrs Ha _ IH]; intros [info S].
  - by intros [= <-].
  - cbn [for_each]. destruct (process_ssrc md enc (info, S) a) as [st1|] eqn:Hstep; [|done].
    cbn [mbind completion_bind]. intros Hrest. rewrite (IH _ Hrest).
    unfold process_ssrc in Hstep.
    assert (String.eqb "msid" (toLowerCase (ssrc_attribute a)) = false) as Hmsid
      by (apply String.eqb_neq; congruence).
    rewrite Hmsid in Hstep.
    destruct (Map_get (ssrc_id a) S);
      destruct (String.eqb "cname" _); by injection Hstep as <-.
Qed.

(** X22. An SDP none of whose media descriptions has an msid, be it an ssrc
    attribute or the msid of the media description, announces no stream: the
    session that [process] returns, when it returns one, has none (cname
    attributes alone create no track). *)
Theorem process_sdp_no_msid (sdp : SDP) (G : SDPInfo) :
  Forall (λ md, truthy (md_msid md) = false ∧
                Forall (λ a, toLowerCase (ssrc_attribute a) ≠ "msid") (md_ssrcs md))
    (sdp_media sdp) →
  process_sdp sdp = Returns G →
  getStreams G = [].
Proof.
  unfold process_sdp, getStreams. intros Hall.
  assert (∀ info G, for_each (process_media sdp) (sdp_media sdp) info = Returns G →
                    streams G = streams info) as Hloop.
  { induction Hall as [|md mds [Hmsid Hattrs] _ IH]; intros info G'; cbn [for_each].
    - by intros [= <-].
    - destruct (process_media sdp info md) as [info1|] eqn:Hmd; [|done].
      cbn [mbind completion_bind]. intros Hrest. rewrite (IH _ _ Hrest).
      destruct (md_ssrcGroups md) as [|g gs] eqn:Hgroups.
      + unfold process_media in Hmd.
        destruct (deref _ _) as [f|]; [|done]. cbn [mbind completion_bind] in Hmd.
        destruct (process_simulcast md _) as [mi enc].
        destruct (for_each (process_ssrc md enc) _ _) as [st|] eqn:Hssrcs; [|done].
        cbn [mbind completion_bind] in Hmd.
        pose proof (process_ssrcs_streams _ _ _ _ _ Hattrs Hssrcs) as Hstreams.
        unfold process_msid in Hmd. destruct st as [info2 S]. rewrite Hmsid, Hgroups in Hmd.
        cbn in Hmd. by injection Hmd as <-.
      + destruct (process_media_throws sdp info md g) as [e He].
        * rewrite Hgroups. left.
        * intros n _. split; [|by rewrite Hmsid].
          intros a Ha _. rewrite Forall_forall in Hattrs. by apply Hattrs.
        * by rewrite He in Hmd. }
  intros Hrun. by rewrite (Hloop _ _ Hrun).
Qed.

End Parser.

(** * What the round trip keeps and what it loses, besides *)

Section RoundTripMore.
Context {enums : Enumerations} {transform : SDPTransform}.

(** X23. The round trip keeps neither the version nor the candidates of a
    session: [toString] writes 0 as the version of the tree and the version
    of the session as the session version of the origin, and every candidate
    on every media description, whereas [process] takes the version of the
    tree and reads no candidate; so the session read back has version 0 and
    no candidate. *)
Theorem roundtrip_version_candidates (now : Z) (isLite : ICEInfo → completion bool)
    (G G' : SDPInfo) (tree : SDP) :
  toString_sdp now isLite G = Returns tree → process_sdp tree = Returns G' →
  getVersion G' = 0%Z ∧ getCandidates G' = [] ∧
  sessionVersion <$> sdp_origin tree = Some (getVersion G) ∧
  Forall (λ md, md_candidates md = toString_candidate <$> getCandidates G) (sdp_media tree).
Proof.
  intros Htree Hrun. pose proof (toString_sdp_media now isLite G tree Htree) as Hpair.
  unfold process_sdp in Hrun. destruct (process_medias_lines _ _ _ _ Hrun) as (Hv & _ & _ & Hc).
  apply toString_sdp_inv in Htree as (_ & _ & _ & _ & _ & _ & _ & _ & Hzero & Hsession & _).
  unfold getVersion, getCandidates.
  split_and!.
  - by rewrite Hv.
  - exact Hc.
  - exact Hsession.
  - clear Hrun Hv Hc Hzero Hsession.
    induction Hpair as [|m md ms mds Hm _ IH]; constructor; [|done].
    unfold toString_media in Hm. destruct (getICE G) as [i|]; [|done].
    destruct (getDTLS G) as [d|]; [|done]. cbn in Hm.
    destruct md. unfold media_level in Hm. cbn in Hm |- *. by simplify_eq.
Qed.

(** ** Numbers in format parameters *)

Lemma includes_pretty (c : ascii) (z : Z) :
  (∀ d, pretty_N_char d ≠ c) → (0 ≤ z)%Z → includes c (pretty z) = false.
Proof.
  intros Hc Hz.
  assert (∀ x s, includes c s = false → includes c (pretty_N_go x s) = false) as Hgo.
  { intros x. induction (N.lt_wf_0 x) as [x _ IH]. intros s Hs.
    destruct (decide (0 < x)%N) as [Hx|Hx].
    - rewrite pretty_N_go_step by done. apply IH; [apply N.div_lt; lia|].
      cbn [includes]. rewrite Hs, orb_false_r. apply Ascii.eqb_neq. apply Hc.
    - assert (x = 0)%N as -> by lia. by rewrite pretty_N_go_0. }
  destruct z as [|x|x]; [|by apply Hgo | lia].
  change (includes c (pretty 0%Z)) with (Ascii.eqb (pretty_N_char 0) c || false).
  rewrite orb_false_r. apply Ascii.eqb_neq. apply Hc.
Qed.

Lemma trimStart_id (s : string) :
  (∀ c, is_space c = true → includes c s = false) → trimStart s = s.
Proof.
  destruct s as [|a s]; [done|]. intros Hs. cbn [trimStart].
  destruct (is_space a) eqn:Ha; [|done]. specialize (Hs a Ha). cbn [includes] in Hs.
  by rewrite Ascii.eqb_refl in Hs.
Qed.

Lemma trimEnd_id (s : string) :
  (∀ c, is_space c = true → includes c s = false) → trimEnd s = s.
Proof.
  induction s as [|a s IH]; [done|]. intros Hs. cbn [trimEnd]. rewrite IH.
  - destruct s; [|done]. destruct (is_space a) eqn:Ha; [|done].
    specialize (Hs a Ha). cbn [includes] in Hs. by rewrite Ascii.eqb_refl in Hs.
  - intros c Hc. specialize (Hs c Hc). cbn [includes] in Hs.
    by apply orb_false_iff in Hs as [_ ?].
Qed.

Lemma trim_pretty (z : Z) : (0 ≤ z)%Z → trim (pretty z) = pretty z.
Proof.
  intros Hz.
  assert (∀ c, is_space c = true → includes c (pretty z) = false) as Hs.
  { intros c Hc. apply includes_pretty; [|done]. intros d Heq.
    destruct (pretty_N_char_plain d) as (Hd & _). congruence. }
  unfold trim. by rewrite trimStart_id, trimEnd_id.
Qed.

(** The [apt] line of an RTX payload type, read back. *)
Lemma process_config_apt (params : gmap string string) (t : Z) :
  (0 ≤ t)%Z →
  process_config params ("apt=" +:+ pretty t) = <["apt" := pretty t]> params.
Proof.
  intros Ht.
  assert (plain_param ("apt", Some (pretty t))) as Hplain.
  { split_and!; [done | done |]. intros v [= <-].
    split; (apply includes_pretty; [|done]); intros d; unfold pretty_N_char;
      by repeat case_match. }
  unfold process_config.
  change ("apt=" +:+ pretty t) with (param_text ("apt", Some (pretty t))).
  rewrite split_without by (by apply param_text_no_semicolon). cbn [fold_left].
  rewrite process_param_split by done. cbn [fst snd default]. unfold id.
  change (trim "apt") with "apt". cbn [String.eqb Ascii.eqb Bool.eqb].
  by rewrite trim_pretty.
Qed.

Lemma process_fmtp_other (t : Z) (fmtp : list Fmtp) (params : gmap string string) :
  Forall (λ f, fmtp_payload f ≠ t) fmtp →
  fold_left (λ params f,
      if bool_decide (fmtp_payload f = t) then process_config params (fmtp_config f)
      else params) fmtp params = params.
Proof.
  revert params. induction fmtp as [|f fmtp IH]; intros params Hall; [done|].
  apply Forall_cons in Hall as [Hf Hall]. cbn [fold_left].
  rewrite bool_decide_eq_false_2 by done. by apply IH.
Qed.

(** ** The codecs of a media line, written and read back *)

Lemma toString_codecs_fmtp (m : MediaInfo) (cs : list CodecInfo) (L : CodecLines) :
  lines_fmtp (fold_left (toString_codec m) cs L) = lines_fmtp L ++ flat_map apt_lines cs.
Proof.
  revert L. induction cs as [|c cs IH]; intros L; cbn [fold_left flat_map].
  - by rewrite app_nil_r.
  - rewrite IH. destruct (toString_codec_shape m L c) as (main & fbs & _ & _ & _ & ->).
    unfold apt_lines. destruct (Codec.getRTX c); cbn [lines_fmtp]; by rewrite <- ?app_assoc.
Qed.

Lemma apt_lines_payloads (cs : list CodecInfo) (t : Z) :
  t ∉ omap Codec.getRTX cs → Forall (λ f, fmtp_payload f ≠ t) (flat_map apt_lines cs).
Proof.
  induction cs as [|c cs IH]; cbn [flat_map omap list_omap]; [constructor|].
  unfold apt_lines at 1. destruct (Codec.getRTX c) as [r|]; cbn [app].
  - intros [Hne Hnin]%not_elem_of_cons. constructor; [done | by apply IH].
  - apply IH.
Qed.

(** What [process] reads for a payload type in the fmtp lines that
    [toString] wrote: nothing for a payload type that is no RTX payload
    type, and the [apt] for the RTX payload type of a codec. *)
Lemma process_fmtp_none (cs : list CodecInfo) (t : Z) :
  t ∉ omap Codec.getRTX cs → process_fmtp t (flat_map apt_lines cs) = ∅.
Proof. intros Ht. unfold process_fmtp. by apply process_fmtp_other, apt_lines_payloads. Qed.

Lemma process_fmtp_apt (cs : list CodecInfo) (c : CodecInfo) (r : Z) :
  NoDup (omap Codec.getRTX cs) → c ∈ cs → Codec.getRTX c = Some r →
  (0 ≤ Codec.getType c)%Z →
  process_fmtp r (flat_map apt_lines cs) = {["apt" := pretty (Codec.getType c)]}.
Proof.
  intros Hnd Hc Hr Ht. apply list_elem_of_split in Hc as (cs1 & cs2 & ->).
  rewrite omap_app in Hnd. cbn [omap list_omap] in Hnd. rewrite Hr in Hnd.
  apply NoDup_app in Hnd as (_ & Hdisj & [Hr2 _]%NoDup_cons).
  assert (r ∉ omap Codec.getRTX cs1) as Hr1.
  { intros Hin. apply (Hdisj r Hin). left. }
  unfold process_fmtp. rewrite flat_map_app, fold_left_app. cbn [flat_map].
  rewrite (process_fmtp_other r (flat_map apt_lines cs1)) by by apply apt_lines_payloads.
  assert (apt_lines c = [{| fmtp_payload := r;
                            fmtp_config := "apt=" +:+ pretty (Codec.getType c) |}]) as ->
    by (unfold apt_lines; by rewrite Hr).
  rewrite fold_left_app. cbn [fold_left fmtp_payload fmtp_config].
  rewrite bool_decide_eq_true_2 by done.
  rewrite process_config_apt by done.
  by rewrite (process_fmtp_other r (flat_map apt_lines cs2)) by by apply apt_lines_payloads.
Qed.

(** The loop over [md.rtp], on the rtpmap entries that [toString] wrote,
    codec by codec. *)
Lemma process_rtps_written (md : MediaDescription) (m : MediaInfo) (cs : list CodecInfo)
    (L : CodecLines) (st : MediaInfo * Map number Z) :
  Forall (λ c,
      toUpperCase (Codec.getCodec c) ≠ "RED" ∧ toUpperCase (Codec.getCodec c) ≠ "ULPFEC" ∧
      toUpperCase (Codec.getCodec c) ≠ "RTX" ∧
      process_fmtp (Codec.getType c) (md_fmtp md) = ∅ ∧
      ∀ r, Codec.getRTX c = Some r →
           parseInt_opt (process_fmtp r (md_fmtp md) !! "apt") = Num (Codec.getType c)) cs →
  fold_left (process_rtp md) (lines_rtp (fold_left (toString_codec m) cs L)) st
  = fold_left read_codec cs (fold_left (process_rtp md) (lines_rtp L) st).
Proof.
  intros Hall. revert L. induction Hall as [|c cs (Hred & Hfec & Hrtx & Hnone & Hapt) _ IH];
    intros L; [done|].
  cbn [fold_left]. rewrite IH. f_equal.
  destruct (toString_codec_shape m L c) as (main & fbs & Hpayload & Hname & _ & ->).
  assert (∀ st0, process_rtp md st0 main
                 = (MediaInfo_addCodec st0.1
                      (Codec.new (Codec.getCodec c) (Codec.getType c) ∅), st0.2)) as Hmain.
  { intros [mi apts]. unfold process_rtp. rewrite Hname, Hpayload, Hnone.
    destruct (String.eqb_spec "RED" (toUpperCase (Codec.getCodec c))); [done|].
    destruct (String.eqb_spec "ULPFEC" (toUpperCase (Codec.getCodec c))); [done|].
    by destruct (String.eqb_spec "RTX" (toUpperCase (Codec.getCodec c))). }
  unfold read_codec. destruct (Codec.getRTX c) as [r|]; cbn [lines_rtp];
    rewrite fold_left_app; cbn [fold_left]; rewrite Hmain; [|done].
  unfold process_rtp. cbn [rtp_codec rtp_payload fst snd].
  change (toUpperCase "rtx") with "RTX". cbn [String.eqb Ascii.eqb Bool.eqb orb].
  by rewrite (Hapt r eq_refl).
Qed.

Lemma read_codecs_get (cs : list CodecInfo) (st : MediaInfo * Map number Z) (t : Z) :
  NoDup (Codec.getType <$> cs) →
  Map_get t (codecs (fold_left read_codec cs st).1)
  = match Map_get t ((λ c, (Codec.getType c, c)) <$> cs) with
    | Some c => Some (Codec.new (Codec.getCodec c) (Codec.getType c) ∅)
    | None => Map_get t (codecs st.1)
    end ∧
  Map_get (Num t) (fold_left read_codec cs st).2
  = match Map_get t ((λ c, (Codec.getType c, c)) <$> cs) with
    | Some c => match Codec.getRTX c with
                | Some r => Some r
                | None => Map_get (Num t) st.2
                end
    | None => Map_get (Num t) st.2
    end.
Proof.
  revert st. induction cs as [|c cs IH]; intros st Hnd; [done|].
  cbn [fmap list_fmap] in Hnd. apply NoDup_cons in Hnd as [Hc Hnd].
  cbn [fold_left fmap list_fmap Map_get]. destruct (IH (read_codec st c) Hnd) as [-> ->].
  unfold read_codec. cbn [fst snd MediaInfo_addCodec MediaInfo_with_codecs codecs
    Codec.getType Codec.new type].
  destruct (decide (Codec.getType c = t)) as [<-|Hne].
  - assert (Map_get (Codec.getType c) ((λ c, (Codec.getType c, c)) <$> cs) = None) as ->.
    { apply Map_get_None. rewrite <- list_fmap_compose. exact Hc. }
    rewrite Map_get_set_eq. split; [done|].
    destruct (Codec.getRTX c) as [r|]; [|done]. by rewrite Map_get_set_eq.
  - rewrite Map_get_set_ne by done. split; [done|].
    assert (Map_get (Num t) match Codec.getRTX c with
                            | Some r => Map_set (Num (Codec.getType c)) r st.2
                            | None => st.2
                            end = Map_get (Num t) st.2) as ->; [|done].
    destruct (Codec.getRTX c) as [r|]; [|done].
    by rewrite Map_get_set_ne by congruence.
Qed.

(** X24. The codecs of a media line, written by [toString] and read back
    by [process]: when the payload types and the RTX payload types of the
    media line are all distinct and not negative, and no codec is named RED,
    ULPFEC or RTX, the payload type of a codec gives back, after the round
    trip, a codec of the same name, payload type and RTX payload type, and
    without any of its format parameters, which [toString] does not write;
    and a payload type without codec gives none. *)
Theorem process_codecs_written (m mi : MediaInfo) (md : MediaDescription) (t : Z) :
  md_rtp md = lines_rtp (toString_codecs m) →
  md_fmtp md = lines_fmtp (toString_codecs m) →
  media_ok m →
  NoDup ((MediaInfo_getCodecs m).*1 ++ omap Codec.getRTX (Map_values (MediaInfo_getCodecs m))) →
  Forall (λ kv, (0 ≤ kv.1)%Z) (MediaInfo_getCodecs m) →
  MediaInfo_getCodecs mi = [] →
  MediaInfo_getCodecForType (process_codecs md mi) (Num t)
  = written_codec <$> MediaInfo_getCodecForType m (Num t).
Proof.
  unfold MediaInfo_getCodecs, MediaInfo_getCodecForType.
  intros Hrtp Hfmtp [Hkeys Hok] Hnd Hpos Hnil.
  set (cs := Map_values (codecs m)) in *.
  assert ((λ c, (Codec.getType c, c)) <$> cs = codecs m) as Hpairs.
  { subst cs. unfold Map_values. clear - Hok. rewrite <- list_fmap_compose.
    induction Hok as [|[k c] kvs [Hk _] _ IH]; [done|]. cbn in *. by rewrite IH, Hk. }
  assert (Codec.getType <$> cs = (codecs m).*1) as Htypes.
  { rewrite <- Hpairs, <- list_fmap_compose. by apply list_fmap_ext. }
  assert (md_fmtp md = flat_map apt_lines cs) as Hlines.
  { rewrite Hfmtp. unfold toString_codecs. by rewrite toString_codecs_fmtp. }
  apply NoDup_app in Hnd as (_ & Hdisj & Hrtxs).
  unfold process_codecs.
  pose proof (process_rtp_apts_NoDup md (md_rtp md) (mi, []) ltac:(constructor)) as Hapts.
  rewrite Hrtp in Hapts |- *. unfold toString_codecs in Hapts |- *.
  change (Map_values (MediaInfo_getCodecs m)) with cs in Hapts |- *.
  rewrite process_rtps_written in Hapts |- *.
  2, 3: apply Forall_forall; intros c Hc;
    assert ((Codec.getType c, c) ∈ codecs m) as Hkv
      by (rewrite <- Hpairs; by apply (list_elem_of_fmap_2 (λ c, (Codec.getType c, c))));
    destruct (proj1 (Forall_forall _ _) Hok _ Hkv) as (_ & Hred & Hfec & Hrtx);
    pose proof (proj1 (Forall_forall _ _) Hpos _ Hkv) as Hc_pos; cbn [fst snd] in *;
    (split_and!; [done | done | done | |]);
    [ rewrite Hlines; apply process_fmtp_none, Hdisj;
      rewrite <- Htypes; by apply list_elem_of_fmap_2
    | intros r Hr; rewrite Hlines, (process_fmtp_apt cs c r) by done;
      rewrite lookup_singleton; unfold parseInt_opt; cbn [to_string default];
      by apply parseInt_pretty ].
  cbn [lines_rtp fold_left] in Hapts |- *.
  destruct (read_codecs_get cs (mi, []) t) as [Hcodec Hapt]; [by rewrite Htypes|].
  destruct (fold_left read_codec cs (mi, [])) as [mi1 apts]. cbn [fst snd] in *.
  rewrite process_apts_codecs by done. rewrite Hcodec, Hapt, Hpairs, Hnil.
  cbn [Map_get]. destruct (Map_get t (codecs m)) as [c|]; [|done].
  cbn [fmap option_fmap option_map]. unfold written_codec.
  by destruct (Codec.getRTX c) as [r|].
Qed.


(** ** The transport, the header extensions and the tracks without ssrc *)

Lemma Forall2_last {A B} (P : A → B → Prop) (l : list A) (k : list B) :
  Forall2 P l k →
  match last l, last k with
  | Some x, Some y => P x y
  | None, None => True
  | _, _ => False
  end.
Proof.
  induction 1 as [|x y l k Hxy Hlk IH]; [done|].
  destruct Hlk as [|x' y' l k Hxy' Hlk]; [done|].
  change (last (x :: x' :: l)) with (last (x' :: l)).
  change (last (y :: y' :: k)) with (last (y' :: k)). exact IH.
Qed.

(** X25. What the round trip keeps of the transport.  On a session with a
    media line, the session read back has the ufrag and the pwd of the ice
    but not its lite flag, which [process] never reads, and the hash and the
    fingerprint of the dtls, with the setup that the enumeration gives back
    for the text of the setup; on a session without media line it has
    neither ice nor dtls, whatever the session had. *)
Theorem roundtrip_transport (now : Z) (isLite : ICEInfo → completion bool)
    (G G' : SDPInfo) (tree : SDP) :
  toString_sdp now isLite G = Returns tree → process_sdp tree = Returns G' →
  match getMedias G with
  | [] => getICE G' = None ∧ getDTLS G' = None
  | _ :: _ =>
      ∃ i d, getICE G = Some i ∧ getDTLS G = Some d ∧
        getICE G' = Some {| ufrag := ICE.getUfrag i; pwd := ICE.getPwd i; lite := false |} ∧
        getDTLS G' =
          Some {| setup := if truthy_string (Setup_toString (setup d))
                           then Setup_byValue (Setup_toString (setup d)) else Setup_ACTPASS;
                  hash := hash d; fingerprint := fingerprint d |}
  end.
Proof.
  intros Htree Hrun. pose proof (toString_sdp_media now isLite G tree Htree) as Hpair.
  unfold process_sdp in Hrun. pose proof (process_medias_transport _ _ _ _ Hrun) as Hlast.
  pose proof (Forall2_last _ _ _ Hpair) as Hlasts. unfold getMedias.
  destruct (medias G) as [|m ms] eqn:Hms.
  - apply Forall2_nil_inv_l in Hpair. rewrite Hpair in Hlast. exact Hlast.
  - destruct (last (m :: ms)) as [m'|] eqn:Hm'; [|by apply last_None in Hm'].
    destruct (last (sdp_media tree)) as [md|]; [|done].
    unfold toString_media in Hlasts. unfold getICE, getDTLS in *.
    destruct (ice G) as [i|]; [|done]. destruct (dtls G) as [d|]; [|done].
    cbn [deref mbind completion_bind] in Hlasts. exists i, d.
    destruct Hlast as (Hice & f & Hf & Hdtls). rewrite Hice, Hdtls.
    destruct md. unfold media_level in Hlasts. cbn in Hlasts, Hf |- *.
    simplify_eq. by destruct Hf as [[= <-]|[[=] _]].
Qed.

(** X26. The header extensions of a media line, written by [toString] and
    read back by [process]: the loop of [process] over the extmap entries
    that the loop of [toString] wrote for a media line gives back the
    extensions of that media line, ids and uris in order. *)
Theorem process_ext_written (m mi : MediaInfo) :
  NoDup (MediaInfo_getExtensions m).*1 → MediaInfo_getExtensions mi = [] →
  MediaInfo_getExtensions
    (fold_left process_ext
       ((λ e, {| ext_value := e.1; ext_uri := e.2 |}) <$> MediaInfo_getExtensions m) mi)
  = MediaInfo_getExtensions m.
Proof.
  unfold MediaInfo_getExtensions. intros Hnd Hnil.
  assert (∀ es mi, NoDup ((extensions mi).*1 ++ es.*1) →
            extensions (fold_left process_ext
                          ((λ e, {| ext_value := e.1; ext_uri := e.2 |}) <$> es) mi)
            = extensions mi ++ es) as Hloop.
  { clear. induction es as [|[id uri] es IH]; intros mi Hnd; cbn [fmap list_fmap fold_left].
    - by rewrite app_nil_r.
    - cbn [fmap list_fmap fst] in Hnd. apply NoDup_app in Hnd as (Hmi & Hdisj & Hes).
      apply NoDup_cons in Hes as [Hid Hes].
      assert (id ∉ (extensions mi).*1) as Hfresh.
      { intros Hin. apply (Hdisj _ Hin). left. }
      rewrite IH; unfold process_ext, MediaInfo_addExtension;
        cbn [extensions ext_value ext_uri fst snd]; rewrite Map_set_fresh by done.
      + by rewrite <- app_assoc.
      + rewrite fmap_app. cbn [fmap list_fmap fst]. rewrite <- app_assoc. cbn [app].
        apply NoDup_app. split_and!; [done | | by apply NoDup_cons].
        intros x Hx [->|Hin]%elem_of_cons; [done|]. apply (Hdisj x Hx). by right. }
  rewrite Hloop; rewrite Hnil; [done|]. done.
Qed.

(** X27. A track without media id that has neither ssrc nor source group
    leaves no trace in what [toString] builds: the loop over the media
    descriptions hands them back as they were, so nothing of the track can
    be read back. *)
Theorem toString_track_empty (stream : StreamInfo) (track : TrackInfo)
    (media : list MediaDescription) :
  truthy (Track.getMediaId track) = false →
  Track.getSSRCs track = [] → Track.getSourceGroups track = [] →
  toString_track stream track media = media.
Proof.
  intros Hplan Hssrcs Hgroups. induction media as [|md media IH]; [done|].
  cbn [toString_track]. rewrite Hplan. destruct (String.eqb _ _); [|by rewrite IH].
  f_equal. unfold attach_planB, md_attach. rewrite Hssrcs, Hgroups.
  cbn [fmap list_fmap flat_map]. rewrite !app_nil_r. by destruct md.
Qed.

End RoundTripMore.
(** * Examples: the theorems at concrete inputs *)

#[local] Existing Instance demo_enums.
#[local] Existing Instance demo_collab.
#[local] Existing Instance demo_transform.

Lemma clone_and_plain_throw_witness :
  streams (addStream (new None) stream1) ≠ [] ∧
  ice (addStream (new None) stream1) = None ∧
  throws (clone (addStream (new None) stream1)) ∧
  throws (plain (addStream (new None) stream1)).
Proof.
  split; [discriminate|]. split; [reflexivity|]. split.
  - apply (proj1 (clone_and_plain_throw (addStream (new None) stream1))).
  - apply (proj2 (clone_and_plain_throw (addStream (new None) stream1))).
    left. discriminate.
Defined.

Lemma answer_of_offer_witness :
  answer audio_session
    (Some {| params_ice := Some (ICE.new (Some "u") (Some "p"));
             params_dtls := Some demo_dtls;
             params_candidates := Some []; params_capabilities := Some ∅ |})
  = Returns {| version := 1; streams := []; medias := [demo_media "a" "audio" [opus]];
               candidates := []; ice := Some (ICE.new (Some "u") (Some "p"));
               dtls := Some demo_dtls |}.
Proof.
  apply answer_of_offer. repeat constructor.
Defined.
Lemma process_fmtp_params_witness :
  process_fmtp 96
    [{| fmtp_payload := 96;
        fmtp_config := join ";" (param_text <$> [(" a ", None); ("b", Some "  2 ")]) |}]
  = fold_left assign [("a", ""); ("b", "2")] ∅.
Proof.
  refine (proj1 (process_fmtp_params 96 (" a ", None) [("b", Some "  2 ")]
                   [("a", ""); ("b", "2")] _ _)).
  - constructor; [|constructor; [|constructor]];
      (split; [reflexivity | split; [reflexivity|]];
       intros v Hv; inversion Hv; split; reflexivity).
  - constructor; [|constructor; [|constructor]]; split; cbn [fst snd default].
    + exists " ", " ". split_and!; reflexivity.
    + exists "", "". split_and!; reflexivity.
    + exists "", "". split_and!; reflexivity.
    + exists "  ", " ". split_and!; reflexivity.
Defined.

Lemma process_rtx_witness :
  (process_rtp video1 (MediaInfo_new "v1" "video", [])
     {| rtp_payload := 101; rtp_codec := "rtx"; rtp_rate := None; rtp_encoding := None |}).1
  = MediaInfo_new "v1" "video".
Proof.
  apply (proj1 (process_rtx video1 (MediaInfo_new "v1" "video"))
           (MediaInfo_new "v1" "video", [])
           {| rtp_payload := 101; rtp_codec := "rtx"; rtp_rate := None;
              rtp_encoding := None |}).
  reflexivity.
Defined.


Lemma toString_codecs_feedback_witness :
  fb_type {| fb_payload := 96; fb_type := "transport-cc"; fb_subtype := None |} ≠ "nack" ∧
  fb_type {| fb_payload := 96; fb_type := "transport-cc"; fb_subtype := None |}
    ≠ "goog-remb".
Proof.
  apply (proj1 (proj2 (toString_codecs_feedback
                         (MediaInfo_addCodec (MediaInfo_new "v" "video") vp8)))).
  left.
Defined.

(** C3, as stated, fails: of two video lines, only the first gets the
    attributes of a video track that has no media id. *)
Lemma toString_track_planB_second_line :
  toLowerCase (md_type video2) = toLowerCase (Track.getMedia planB_track) ∧
  truthy (Track.getMediaId planB_track) = false ∧
  toString_streams [Stream.addTrack stream1 planB_track] [video1; video2]
  = [attach_planB stream1 planB_track video1; video2] ∧
  md_ssrcs video2 = [] ∧
  md_ssrcs (attach_planB stream1 planB_track video2) ≠ [].
Proof. repeat split; discriminate. Qed.

Lemma toString_track_first_match_witness :
  toString_track stream1 unified_track ([video1] ++ video2 :: [audio1])
  = [video1] ++ attach_unified stream1 unified_track video2 :: [audio1]
  ∧ toString_track stream1 planB_track ([audio1] ++ video1 :: [video2])
    = [audio1] ++ attach_planB stream1 planB_track video1 :: [video2]
  ∧ toString_track stream1 planB_track [audio1] = [audio1].
Proof.
  split_and!.
  - apply (proj1 (toString_track_first_match stream1 unified_track [video1] video2 [audio1]));
      [reflexivity | | reflexivity].
    intros md' ->%list_elem_of_singleton. discriminate.
  - apply (proj1 (proj2 (toString_track_first_match stream1 planB_track [audio1] video1
                           [video2])));
      [reflexivity | | reflexivity].
    intros md' ->%list_elem_of_singleton. discriminate.
  - apply (proj1 (proj2 (proj2 (toString_track_first_match stream1 planB_track [audio1]
                                  video1 [])))).
    intros md' ->%list_elem_of_singleton. discriminate.
Defined.

Lemma toString_sdp_clock_witness :
  ∃ sdp, toString_sdp 1 isLite_getLite audio_session = Returns sdp ∧
         sessionId <$> sdp_origin sdp = Some 1%Z ∧
         toString_sdp 2 isLite_getLite audio_session = Returns (with_sessionId 2 sdp).
Proof.
  eexists. split; [reflexivity|].
  apply (toString_sdp_clock 1 2 isLite_getLite audio_session). reflexivity.
Defined.



(** Why the round trip asks for codecs other than RED: with a member
    [isLite] that returns, a media line built with [addCodec] that holds a
    codec named red comes back without it. *)
Lemma red_codec_lost_in_round_trip :
  is_Some (ice red_session) ∧ is_Some (dtls red_session) ∧
  (λ m, (codecs m).*1) <$> medias red_session = [[116%Z; 96%Z]] ∧
  ∃ tree G',
    toString_sdp 0 isLite_getLite red_session = Returns tree ∧
    process_sdp tree = Returns G' ∧
    (λ m, (codecs m).*1) <$> medias G' = [[96%Z]].
Proof.
  split; [by eexists|]. split; [by eexists|]. split; [reflexivity|].
  eexists _, _. split; [reflexivity|]. split; reflexivity.
Qed.

(** ** The properties of the methods, of the serializer and of the parser *)

Lemma removeStream_addStream_witness :
  removeStream (addStream (new None) stream1) stream1 = new None.
Proof. apply (removeStream_addStream (new None) stream1). reflexivity. Defined.

Lemma answer_shape_witness :
  ∃ a, answer audio_session (Some ice_only) = Returns a ∧
       getICE a = None ∧ getDTLS a = None ∧ getCandidates a = [] ∧
       getVersion a = 1%Z ∧ getStreams a = [] ∧ length (getMedias a) = 1%nat.
Proof.
  eexists. split; [reflexivity|].
  apply (answer_shape audio_session ice_only). reflexivity.
Defined.

Lemma answer_throws_witness :
  throws (answer audio_session None) ∧
  throws (answer audio_session (Some no_capabilities)) ∧
  ∃ a, answer (new None) (Some no_capabilities) = Returns a.
Proof.
  split_and!.
  - apply (proj1 (answer_throws audio_session)).
  - apply (proj1 (proj2 (answer_throws audio_session)) no_capabilities);
      [reflexivity | discriminate].
  - apply (proj2 (proj2 (answer_throws (new None))) no_capabilities). reflexivity.
Defined.

Lemma plain_returns_witness :
  ∃ o, plain (addMedia (new None) (demo_media "a" "audio" [opus])) = Returns o ∧
       plain_version o = 1%Z ∧ plain_streams o = [] ∧ plain_ice o = None ∧
       length (plain_medias o) = 1%nat ∧ length (plain_candidates o) = 0%nat ∧
       (is_Some (plain_dtls o) ↔ is_Some (@None DTLSInfo)).
Proof.
  apply (proj1 (plain_returns (addMedia (new None) (demo_media "a" "audio" [opus]))
                  ltac:(repeat constructor; by eexists) ltac:(constructor)
                  ltac:(intros d; discriminate))).
  split; reflexivity.
Defined.

Lemma toString_sdp_lines_witness :
  ∃ tree, toString_sdp 0 isLite_getLite call_session = Returns tree ∧
          md_mid <$> sdp_media tree = ["a1"; "v2"] ∧
          sdp_groups tree = [{| group_type := "BUNDLE"; mids := "a1 v2" |}].
Proof.
  eexists. split; [reflexivity|].
  destruct (toString_sdp_lines 0 isLite_getLite call_session _ eq_refl) as (_ & Hgroups & _).
  split; [reflexivity | exact Hgroups].
Defined.

Lemma toString_sdp_payloads_witness :
  ∃ tree, toString_sdp 0 isLite_getLite call_session = Returns tree ∧
          Forall (λ md, md_payloads md = join " " ((λ r, pretty (rtp_payload r)) <$> md_rtp md))
            (sdp_media tree).
Proof.
  eexists. split; [reflexivity|].
  eapply Forall_impl; [apply (toString_sdp_payloads 0 isLite_getLite call_session _ eq_refl)|].
  intros md Hmd. exact (proj1 Hmd).
Defined.

Lemma toString_streamlist_join_witness :
  toString_streamlist
    [[{| sid := "a"; spaused := false |}; {| sid := "b"; spaused := true |}];
     [{| sid := "c"; spaused := false |}]]
  = "a,~b;c".
Proof.
  apply (toString_streamlist_join
           [[{| sid := "a"; spaused := false |}; {| sid := "b"; spaused := true |}];
            [{| sid := "c"; spaused := false |}]]).
  repeat constructor; discriminate.
Defined.

Lemma process_sdp_lines_witness :
  ∃ G, process_sdp (demo_tree (Some demo_fingerprint) [audio1; video1]) = Returns G ∧
       getVersion G = 0%Z ∧
       MediaInfo_getId <$> getMedias G = ["a1"; "v1"] ∧
       MediaInfo_getType <$> getMedias G = ["audio"; "video"] ∧
       getCandidates G = [].
Proof.
  eexists. split; [reflexivity|].
  apply (process_sdp_lines (demo_tree (Some demo_fingerprint) [audio1; video1])).
  reflexivity.
Defined.

Lemma process_sdp_transport_witness :
  ∃ G, process_sdp (demo_tree (Some demo_fingerprint) [audio1; video1]) = Returns G ∧
       getICE G = Some (ICE.new None None) ∧
       ∃ f, (md_fingerprint video1 = Some f ∨
             (md_fingerprint video1 = None ∧ Some demo_fingerprint = Some f)) ∧
            getDTLS G = Some {| setup := Setup_ACTPASS; hash := fp_type f;
                                fingerprint := fp_hash f |}.
Proof.
  eexists. split; [reflexivity|].
  apply (process_sdp_transport (demo_tree (Some demo_fingerprint) [audio1; video1])).
  reflexivity.
Defined.

Lemma process_sdp_no_fingerprint_witness :
  throws (process_sdp (demo_tree None [audio1])).
Proof.
  apply (process_sdp_no_fingerprint (demo_tree None [audio1]) audio1);
    [left | reflexivity | reflexivity].
Defined.

Lemma process_sdp_msid_without_value_witness :
  throws (process_sdp (demo_tree (Some demo_fingerprint) [msid_line_without_value])).
Proof.
  apply (process_sdp_msid_without_value
           (demo_tree (Some demo_fingerprint) [msid_line_without_value])
           msid_line_without_value
           {| ssrc_id := 1000; ssrc_attribute := "MSID"; ssrc_value := None |});
    [left | left | reflexivity | reflexivity].
Defined.

Lemma process_sdp_codecs_witness :
  ∃ G, process_sdp (demo_tree (Some demo_fingerprint) [rtx_line]) = Returns G ∧
       Forall2 (λ m md,
           media_ok m ∧
           Forall (λ kv, ∃ r, r ∈ md_rtp md ∧ rtp_payload r = kv.1 ∧
                              rtp_codec r = Codec.getCodec kv.2) (MediaInfo_getCodecs m))
         (getMedias G) [rtx_line].
Proof.
  eexists. split; [reflexivity|].
  apply (process_sdp_codecs (demo_tree (Some demo_fingerprint) [rtx_line])). reflexivity.
Defined.

Lemma process_sdp_no_msid_witness :
  ∃ G, process_sdp (demo_tree (Some demo_fingerprint) [cname_line]) = Returns G ∧
       getStreams G = [].
Proof.
  eexists. split; [reflexivity|].
  apply (process_sdp_no_msid (demo_tree (Some demo_fingerprint) [cname_line]));
    [|reflexivity].
  repeat constructor. discriminate.
Defined.

Lemma roundtrip_version_candidates_witness :
  getVersion lite_session = 7%Z ∧ length (getCandidates lite_session) = 1%nat ∧
  toString_sdp 0 isLite_getLite lite_session = Returns lite_tree ∧
  process_sdp lite_tree = Returns lite_back ∧
  getVersion lite_back = 0%Z ∧ getCandidates lite_back = [].
Proof.
  assert (toString_sdp 0 isLite_getLite lite_session = Returns lite_tree) as Htree
    by (vm_compute; reflexivity).
  assert (process_sdp lite_tree = Returns lite_back) as Hback
    by (vm_compute; reflexivity).
  split; [reflexivity|]. split; [reflexivity|]. split; [exact Htree|]. split; [exact Hback|].
  destruct (roundtrip_version_candidates 0 isLite_getLite lite_session lite_back lite_tree Htree Hback)
    as (Hv & Hc & _).
  split; [exact Hv | exact Hc].
Defined.

Lemma process_codecs_written_witness :
  MediaInfo_getCodecForType rtx_media (Num 96) = Some vp8_rtx ∧
  MediaInfo_getCodecForType (process_codecs rtx_line (MediaInfo_new "v" "video")) (Num 96)
  = Some {| codec := "VP8"; type := 96; params := ∅; rtx := Some 97%Z |}.
Proof.
  split; [reflexivity|].
  apply (process_codecs_written rtx_media (MediaInfo_new "v" "video") rtx_line 96).
  - reflexivity.
  - reflexivity.
  - split; [repeat constructor; apply not_elem_of_nil|].
    repeat constructor; by vm_compute.
  - by apply (bool_decide_unpack _); vm_compute.
  - repeat constructor. cbn. lia.
  - reflexivity.
Defined.

Lemma roundtrip_transport_witness :
  toString_sdp 0 isLite_getLite lite_session = Returns lite_tree ∧
  process_sdp lite_tree = Returns lite_back ∧
  (ICE.getLite <$> getICE lite_session) = Some true ∧
  getICE lite_back = Some {| ufrag := Some "u"; pwd := Some "p"; lite := false |} ∧
  getDTLS lite_back = Some demo_dtls.
Proof.
  assert (toString_sdp 0 isLite_getLite lite_session = Returns lite_tree) as Htree
    by (vm_compute; reflexivity).
  assert (process_sdp lite_tree = Returns lite_back) as Hback
    by (vm_compute; reflexivity).
  split; [exact Htree|]. split; [exact Hback|]. split; [reflexivity|].
  destruct (roundtrip_transport 0 isLite_getLite lite_session lite_back lite_tree Htree Hback)
    as (i & d & Hi & Hd & Hice & Hdtls).
  injection Hi as <-. injection Hd as <-. split; [exact Hice | exact Hdtls].
Defined.

Lemma process_ext_written_witness :
  MediaInfo_getExtensions
    (fold_left process_ext
       [{| ext_value := 1; ext_uri := "urn:a" |}; {| ext_value := 2; ext_uri := "urn:b" |}]
       (MediaInfo_new "v" "video"))
  = [(1%Z, "urn:a"); (2%Z, "urn:b")].
Proof.
  apply (process_ext_written ext_media (MediaInfo_new "v" "video")); [|reflexivity].
  by apply (bool_decide_unpack _); vm_compute.
Defined.

Lemma toString_track_empty_witness :
  toString_track stream1 empty_track [video1; audio1] = [video1; audio1].
Proof.
  apply (toString_track_empty stream1 empty_track [video1; audio1]); reflexivity.
Defined.
